(** * BulletArm VTT baseline: the agent and the trainer

    A shallow embedding of [bulletarm_baselines/vtt/vtt/agent.py] and
    [bulletarm_baselines/vtt/vtt/trainer.py].

    Conventions of the embedding.
    - A float is idealised as a rational ([Q]); equalities between computed
      values are stated with [==] ([Qeq]).  Rounding, [inf] and [nan] are
      outside the model.
    - A one-dimensional tensor is a [list Q]; a batch of rows is a
      [list (list Q)]; a history buffer of shape [envs, slots, ...] is a
      list (one entry per environment) of lists (one entry per slot).
    - Lists do not carry the inner shape of a tensor: an entry written
      into a buffer is taken to have the shape of the entries it replaces.
    - Moving a tensor to a device and copying it are the identity.
    - A Python exception is [None]. *)

From Stdlib Require Import String.
From Stdlib Require Import List Bool Arith PeanoNat Lia ZArith.
From Stdlib Require Import QArith Qminmax Qabs Lqa Qfield.
Import ListNotations.

Local Open Scope Q_scope.

(** ** A small error monad: a Python exception aborts the call *)

Definition bind {A B : Type} (m : option A) (k : A -> option B) : option B :=
  match m with
  | Some a => k a
  | None => None
  end.

Notation "x <- m ;; k" := (bind m (fun x => k))
  (at level 61, m at next level, right associativity).
Notation "' pat <- m ;; k" := (bind m (fun x => match x with pat => k end))
  (at level 61, pat pattern, m at next level, right associativity).

(** ** Tensors *)

Module Tensor.

Definition Vec := list Q.

(** An image or a feature map of shape [C, H, W]. *)
Definition Frame := list (list Vec).

(** Elementwise use of a scalar function on a one-dimensional tensor. *)
Definition pointwise (f : Q -> Q) (t : Vec) : Vec := map f t.

Fixpoint map2 {A B C : Type} (f : A -> B -> C) (a : list A) (b : list B) : list C :=
  match a, b with
  | x :: a', y :: b' => f x y :: map2 f a' b'
  | _, _ => []
  end.

(** An elementwise binary operation on one-dimensional tensors, with torch's
    broadcasting: equal sizes, or one side of size one; an error otherwise. *)
Definition ew2 (f : Q -> Q -> Q) (a b : Vec) : option Vec :=
  if (length a =? length b)%nat then Some (map2 f a b)
  else match a, b with
       | [x], _ => Some (map (f x) b)
       | _, [y] => Some (map (fun x => f x y) a)
       | _, _ => None
       end.

(** [dst.copy_(src)]: [src] must have the size of [dst] or broadcast to it. *)
Definition copy_ (dst src : Vec) : option Vec :=
  if (length src =? length dst)%nat then Some src
  else match src with
       | [x] => Some (repeat x (length dst))
       | _ => None
       end.

Definition sum (t : Vec) : Q := fold_right Qplus 0 t.

(** [t.mean()]; on an empty tensor torch yields [nan], the rationals [0]. *)
Definition mean (t : Vec) : Q := sum t / inject_Z (Z.of_nat (length t)).

(** [F.mse_loss(a, b)] with the default mean reduction. *)
Definition mse_loss (a b : Vec) : option Q :=
  d <- ew2 (fun x y => (x - y) * (x - y)) a b ;;
  Some (mean d).

(** [torch.clamp(x, min, max)] computes [min(max(x, min), max)]; when
    [min > max] every element becomes [max]. *)
Definition clamp1 (lo hi x : Q) : Q := Qmin (Qmax x lo) hi.

(** [t[:, i]] on a batch of rows: an [IndexError] when a row is too short. *)
Fixpoint column (i : nat) (rows : list Vec) : option Vec :=
  match rows with
  | [] => Some []
  | r :: rows' =>
      match nth_error r i, column i rows' with
      | Some x, Some c => Some (x :: c)
      | _, _ => None
      end
  end.

(** [t[:, -1]] on a tensor of shape [B, T, ...]: the last entry along the
    second dimension, an [IndexError] when [T = 0]. *)
Fixpoint last_slot {A : Type} (t : list (list A)) : option (list A) :=
  match t with
  | [] => Some []
  | w :: t' =>
      match rev w, last_slot t' with
      | x :: _, Some c => Some (x :: c)
      | _, _ => None
      end
  end.

(** [t[:, -2]]. *)
Fixpoint before_last_slot {A : Type} (t : list (list A)) : option (list A) :=
  match t with
  | [] => Some []
  | w :: t' =>
      match rev w, before_last_slot t' with
      | _ :: x :: _, Some c => Some (x :: c)
      | _, _ => None
      end
  end.

(** [torch.stack([a, b, c, d, e], dim=1)] on five one-dimensional tensors:
    the rows [[a_i, b_i, c_i, d_i, e_i]]; an error when the sizes differ. *)
Fixpoint stack5 (a b c d e : Vec) : option (list Vec) :=
  match a, b, c, d, e with
  | [], [], [], [], [] => Some []
  | x :: a', y :: b', z :: c', w :: d', v :: e' =>
      match stack5 a' b' c' d' e' with
      | Some rows => Some ([x; y; z; w; v] :: rows)
      | None => None
      end
  | _, _, _, _, _ => None
  end.

Definition zeros1 (n : nat) : Vec := repeat 0 n.
Definition zeros3 (c h w : nat) : Frame := repeat (repeat (zeros1 w) h) c.

(** Rows of [d] entries cut from a flat tensor. *)
Fixpoint chunks (d n : nat) (flat : Vec) : list Vec :=
  match n with
  | O => []
  | S n' => firstn d flat :: chunks d n' (skipn d flat)
  end.

(** [t.view(b, d)] on a two-dimensional tensor: the element count must be
    [b * d]. *)
Definition view2 (b d : nat) (t : list Vec) : option (list Vec) :=
  let flat := concat t in
  if (length flat =? b * d)%nat then Some (chunks d b flat) else None.

(** [t.view(n, -1)]: the element count must be a multiple of [n]; on an
    empty tensor the inferred size is ambiguous and torch raises. *)
Definition view_rows (n : nat) (flat : Vec) : option (list Vec) :=
  if (n =? 0)%nat || (length flat =? 0)%nat then None
  else if (length flat mod n =? 0)%nat then Some (chunks (length flat / n) n flat)
  else None.

(** [torch.cat([a, b], dim=1)] on two-dimensional tensors. *)
Definition cat1 (a b : list Vec) : option (list Vec) :=
  if (length a =? length b)%nat then Some (map2 (@app Q) a b) else None.

(** [torch.roll(h, -1, 1)] on a buffer of shape [envs, slots, ...]: along the
    slot dimension every entry moves one place towards the front and the
    first entry wraps around to the end. *)
Definition roll_left {A : Type} (w : list A) : list A :=
  match w with
  | [] => []
  | x :: w' => w' ++ [x]
  end.

Definition roll {A : Type} (h : list (list A)) : list (list A) := map roll_left h.

(** Broadcasting of the batch dimension of a right-hand side to [n] rows. *)
Definition expand {A : Type} (n : nat) (v : list A) : option (list A) :=
  if (length v =? n)%nat then Some v
  else match v with
       | [x] => Some (repeat x n)
       | _ => None
       end.

(** [w[-1] = x] on one window: an [IndexError] on an empty window. *)
Definition set_last {A : Type} (w : list A) (x : A) : option (list A) :=
  match w with
  | [] => None
  | _ :: _ => Some (removelast w ++ [x])
  end.

Fixpoint set_last_all {A : Type} (h : list (list A)) (v : list A)
  : option (list (list A)) :=
  match h, v with
  | [], _ => Some []
  | w :: h', x :: v' =>
      w1 <- set_last w x ;;
      h1 <- set_last_all h' v' ;;
      Some (w1 :: h1)
  | _ :: _, [] => None
  end.

(** [h[:, -1] = v]. *)
Definition assign_last {A : Type} (h : list (list A)) (v : list A)
  : option (list (list A)) :=
  v1 <- expand (length h) v ;;
  set_last_all h v1.

(** Pointwise rational equality of tensors and of batches of rows. *)
Definition vec_eq (a b : Vec) : Prop := Forall2 Qeq a b.
Definition rows_eq (a b : list Vec) : Prop := Forall2 vec_eq a b.

Definition all_zero1 (t : Vec) : Prop := Forall (fun x => x = 0) t.
Definition all_zero3 (f : Frame) : Prop := Forall (Forall all_zero1) f.

End Tensor.

Import Tensor.

(** ** The task configuration (the fields the two classes read) *)

Record Config := {
  dpos : Q;
  drot : Q;
  action_dim : nat;
  seq_len : nat;
  vision_channels : nat;
  vision_size : nat;
  force_dim : nat;
  proprio_dim : nat;
  num_data_gen_envs : nat;
  max_force : Q;
  discount : Q;
  tau : Q;
  init_temp : Q;
  pretraining_steps : nat;
  training_steps : nat;
  lr_decay : Q;
  lr_decay_interval : nat;
  checkpoint_interval : nat;
  eval_interval : nat;
  save_model : bool
}.

(** ** Network modules and their state dicts *)

Module Nets.

(** An ordered state dict: parameter names with their (flattened) tensors. *)
Definition StateDict := list (string * Vec).

(** An [nn.Module] is represented by its parameters in registration order. *)
Definition Net := StateDict.

Definition state_dict (m : Net) : StateDict := m.

Definition parameters (m : Net) : list Vec := map snd m.

Definition keys (sd : StateDict) : list string := map fst sd.

Fixpoint lookup (k : string) (sd : StateDict) : option Vec :=
  match sd with
  | [] => None
  | (k', v) :: sd' => if String.eqb k k' then Some v else lookup k sd'
  end.

Definition has_key (sd : StateDict) (k : string) : bool :=
  existsb (String.eqb k) (keys sd).

(** The copy of every parameter of the module from the state dict; a
    [RuntimeError] on a missing key or on a size mismatch. *)
Fixpoint load_params (m : Net) (sd : StateDict) : option Net :=
  match m with
  | [] => Some []
  | (k, t) :: m' =>
      v <- lookup k sd ;;
      (if (length v =? length t)%nat then
         m1 <- load_params m' sd ;;
         Some ((k, v) :: m1)
       else None)
  end.

(** [module.load_state_dict(sd)] with the default [strict=True]: a
    [RuntimeError] on missing keys, unexpected keys or a size mismatch. *)
Definition load_state_dict (m : Net) (sd : StateDict) : option Net :=
  if forallb (has_key sd) (keys m) && forallb (has_key m) (keys sd)
  then load_params m sd
  else None.

(** Two modules built by the same constructor call: the same parameter
    names in the same order, with the same sizes. *)
Definition same_shape (a b : Net) : Prop :=
  Forall2 (fun x y => fst x = fst y /\ length (snd x) = length (snd y)) a b.

End Nets.

Import Nets.

(** ** Action scaling (agent.py, lines 21-25, 108-113, 129-133, 154) *)

Module Scaling.

(** A range tensor [torch.tensor([min, max])]: [r[0]] is [fst], [r[1]] is [snd]. *)
Definition Range := (Q * Q)%type.

(** One line of [decodeActions]:
    [0.5 * (unscaled + 1) * (range[1] - range[0]) + range[0]]. *)
Definition decode1 (r : Range) (u : Q) : Q :=
  (1 # 2) * (u + 1) * (snd r - fst r) + fst r.

(** The body of [getUnscaledActions]:
    [2 * (action - range[0]) / (range[1] - range[0]) - 1].
    (On a range with [range[0] = range[1]] torch yields [nan] or [inf]; the
    rationals yield [-1].  Every statement that depends on it assumes
    [range[0] < range[1]].) *)
Definition unscale1 (r : Range) (a : Q) : Q :=
  2 * (a - fst r) / (snd r - fst r) - 1.

(** [tensor.clamp( *range )] on a column. *)
Definition clamp (x : Vec) (r : Range) : Vec :=
  pointwise (clamp1 (fst r) (snd r)) x.

(** A range is proper when its lower bound is below its upper bound. *)
Definition proper (r : Range) : Prop := fst r < snd r.

Definition within (r : Range) (x : Q) : Prop := fst r <= x <= snd r.

End Scaling.

Import Scaling.

(** ** Collaborators that are not part of the two classes

    The network architectures ([models.sac], [models.latent]), the helpers of
    [torch_utils] and [utils], the optimiser and the random number generator
    are outside the modelled files.  They enter as the fields of one record;
    a random draw is an explicit argument of type [Noise]. *)

(** A replay batch (trainer.py, line 334): the observation pair, the action,
    reward and done sequences, each of shape [B, T, ...]. *)
Record Batch := {
  obs_vision : list (list Frame);
  obs_force : list (list Vec);
  action_batch : list (list Vec);
  reward_batch : list Vec;
  done_batch : list Vec
}.

Record External := {
  Noise : Type;
  AdamState : Type;
  (** [torch_utils.centerCrop(vision, out=size)] *)
  centerCrop : list Frame -> nat -> list Frame;
  (** [torch_utils.normalizeForce(force, max_force)] *)
  normalizeForce : list Vec -> Q -> list Vec;
  (** [latent.encoder(vision, force)], first component of the result *)
  encoder : Net -> list (list Frame) -> list (list Vec) -> list (list Vec);
  (** [torch.cat(latent.sample_posterior(feature, actions)[2:], dim=-1)] *)
  sample_posterior :
    Net -> Noise -> list (list Vec) -> list (list Vec) -> list (list Vec);
  (** [utils.create_feature_actions(feature, actions)] *)
  create_feature_actions :
    list (list Vec) -> list (list Vec) -> list Vec * list Vec;
  (** [actor.sample(x)]: the action rows and the squeezed log-probabilities *)
  actor_sample : Net -> Noise -> list Vec -> list Vec * Vec;
  (** [critic(z, action)]: the two squeezed Q estimates *)
  critic_forward : Net -> list Vec -> list Vec -> Vec * Vec;
  (** [latent.calculate_loss(...)]: the five loss terms *)
  calculate_loss : Net -> Noise -> Batch -> Q -> Q * Q * Q * Q * Q;
  (** [latent.calculate_alignment_loss(vision, force)] *)
  calculate_alignment_loss : Net -> Noise -> Batch -> Q;
  (** [zero_grad(); loss.backward(); optimizer.step()] for a loss given as a
      function of the parameters the optimiser owns, at learning rate [lr] *)
  adam : AdamState -> Q -> (Net -> option Q) -> Net -> AdamState * Net;
  (** the same for the single scalar [log_alpha] *)
  adam_scalar : AdamState -> Q -> (Q -> Q) -> Q -> AdamState * Q;
  (** [torch.exp] *)
  exp : Q -> Q
}.

(** ** The agent (agent.py) *)

Module Agent.

Record t := {
  config : Config;
  p_range : Range;
  dx_range : Range;
  dy_range : Range;
  dz_range : Range;
  dtheta_range : Range;
  action_shape : nat;
  vision_history : list (list Frame);
  force_history : list (list Vec);
  action_history : list (list Vec);
  latent : Net;
  actor : Net;
  critic : Net
}.

Definition with_histories (self : t)
    (vh : list (list Frame)) (fh ah : list (list Vec)) : t :=
  {| config := config self;
     p_range := p_range self; dx_range := dx_range self;
     dy_range := dy_range self; dz_range := dz_range self;
     dtheta_range := dtheta_range self;
     action_shape := action_shape self;
     vision_history := vh; force_history := fh; action_history := ah;
     latent := latent self; actor := actor self; critic := critic self |}.

Definition with_nets (self : t) (l a c : Net) : t :=
  {| config := config self;
     p_range := p_range self; dx_range := dx_range self;
     dy_range := dy_range self; dz_range := dz_range self;
     dtheta_range := dtheta_range self;
     action_shape := action_shape self;
     vision_history := vision_history self;
     force_history := force_history self;
     action_history := action_history self;
     latent := l; actor := a; critic := c |}.

(** [torch.zeros(d0, d1, ...)] of the three history buffers (lines 52-54).
    The action buffer has [seq_len - 1] slots; with [seq_len = 0] that is a
    negative dimension and [torch.zeros] raises. *)
Definition zero_histories (cfg : Config)
  : option (list (list Frame) * list (list Vec) * list (list Vec)) :=
  match seq_len cfg with
  | O => None
  | S k =>
      Some (repeat (repeat (zeros3 (vision_channels cfg) (vision_size cfg)
                              (vision_size cfg)) (seq_len cfg))
                   (num_data_gen_envs cfg),
            repeat (repeat (zeros1 (force_dim cfg)) (seq_len cfg))
                   (num_data_gen_envs cfg),
            repeat (repeat (zeros1 (action_dim cfg)) k)
                   (num_data_gen_envs cfg))
  end.

(** [resetEpisode] (lines 51-54). *)
Definition resetEpisode (self : t) : option t :=
  '(vh, fh, ah) <- zero_histories (config self) ;;
  Some (with_histories self vh fh ah).

(** [__init__] (lines 17-49) when the three models are handed in, as the
    trainer does (trainer.py, line 81). *)
Definition init (cfg : Config) (latent0 actor0 critic0 : Net) : option t :=
  '(vh, fh, ah) <- zero_histories cfg ;;
  Some {| config := cfg;
          p_range := (0, 1);
          dx_range := (- dpos cfg, dpos cfg);
          dy_range := (- dpos cfg, dpos cfg);
          dz_range := (- dpos cfg, dpos cfg);
          dtheta_range := (- drot cfg, drot cfg);
          action_shape := action_dim cfg;
          vision_history := vh; force_history := fh; action_history := ah;
          latent := latent0; actor := actor0; critic := critic0 |}.

(** [getUnscaledActions] (line 154), elementwise on a column. *)
Definition getUnscaledActions (self : t) (action : Vec) (action_range : Range)
  : Vec :=
  pointwise (unscale1 action_range) action.

(** [decodeActions] (lines 108-117): (unscaled actions, actions). *)
Definition decodeActions (self : t)
    (unscaled_p unscaled_dx unscaled_dy unscaled_dz unscaled_dtheta : Vec)
  : option (list Vec * list Vec) :=
  let p := pointwise (decode1 (p_range self)) unscaled_p in
  let dx := pointwise (decode1 (dx_range self)) unscaled_dx in
  let dy := pointwise (decode1 (dy_range self)) unscaled_dy in
  let dz := pointwise (decode1 (dz_range self)) unscaled_dz in
  let dtheta := pointwise (decode1 (dtheta_range self)) unscaled_dtheta in
  actions <- stack5 p dx dy dz dtheta ;;
  unscaled_actions <-
    stack5 unscaled_p unscaled_dx unscaled_dy unscaled_dz unscaled_dtheta ;;
  Some (unscaled_actions, actions).

(** [convertPlanAction] (lines 129-141). *)
Definition convertPlanAction (self : t) (plan_action : list Vec)
  : option (list Vec * list Vec) :=
  c0 <- column 0 plan_action ;;
  let p := clamp c0 (p_range self) in
  c1 <- column 1 plan_action ;;
  let dx := clamp c1 (dx_range self) in
  c2 <- column 2 plan_action ;;
  let dy := clamp c2 (dy_range self) in
  c3 <- column 3 plan_action ;;
  let dz := clamp c3 (dz_range self) in
  c4 <- column 4 plan_action ;;
  let dtheta := clamp c4 (dtheta_range self) in
  decodeActions self
    (getUnscaledActions self p (p_range self))
    (getUnscaledActions self dx (dx_range self))
    (getUnscaledActions self dy (dy_range self))
    (getUnscaledActions self dz (dz_range self))
    (getUnscaledActions self dtheta (dtheta_range self)).

(** [decodeActions( *[action[:, i] for i in range(action_shape)] )] (line 89):
    the method takes exactly five columns, any other count is a [TypeError]. *)
Definition decode_columns (self : t) (action : list Vec)
  : option (list Vec * list Vec) :=
  match action_shape self with
  | 5%nat =>
      c0 <- column 0 action ;;
      c1 <- column 1 action ;;
      c2 <- column 2 action ;;
      c3 <- column 3 action ;;
      c4 <- column 4 action ;;
      decodeActions self c0 c1 c2 c3 c4
  | _ => None
  end.

(** The preprocessing of the observation (lines 66-69). *)
Definition preprocess_vision (X : External) (self : t) (vision : list Frame)
  : list Frame :=
  centerCrop X vision (vision_size (config self)).

Definition preprocess_force (X : External) (self : t) (batch : nat)
    (force : list (list Vec)) : option (list Vec) :=
  latest <- last_slot force ;;
  view2 batch (force_dim (config self))
        (normalizeForce X latest (max_force (config self))).

(** [getAction] (lines 66-92): the new agent state and the triple
    (unscaled action, action, value). *)
Definition getAction (X : External) (self : t) (eps : Noise X)
    (vision : list Frame) (force : list (list Vec)) (proprio : list Vec)
    (evaluate : bool)
  : option (t * (list Vec * list Vec * Q)) :=
  let cfg := config self in
  let vision := preprocess_vision X self vision in
  force <- preprocess_force X self (length vision) force ;;
  proprio <- view2 (length vision) (proprio_dim cfg) proprio ;;
  vh <- assign_last (roll (vision_history self)) vision ;;
  fh <- assign_last (roll (force_history self)) force ;;
  let z := encoder X (latent self) vh fh in
  z <- view_rows (num_data_gen_envs cfg) (concat (concat z)) ;;
  a <- view_rows (num_data_gen_envs cfg) (concat (concat (action_history self))) ;;
  z <- cat1 z a ;;
  let '(action, _) :=
    if evaluate then actor_sample X (actor self) eps z
    else actor_sample X (actor self) eps z in
  ah <- assign_last (roll (action_history self)) action ;;
  '(action_idx, action) <- decode_columns self action ;;
  let value := 0 in
  Some (with_histories self vh fh ah, (action_idx, action, value)).

(** [getWeights] (lines 159-161). *)
Definition getWeights (self : t) : StateDict * StateDict * StateDict :=
  (state_dict (latent self), state_dict (actor self), state_dict (critic self)).

(** [setWeights] (lines 170-173). *)
Definition setWeights (self : t) (weights : option (StateDict * StateDict * StateDict))
  : option t :=
  match weights with
  | None => Some self
  | Some (w0, w1, w2) =>
      l <- load_state_dict (latent self) w0 ;;
      a <- load_state_dict (actor self) w1 ;;
      c <- load_state_dict (critic self) w2 ;;
      Some (with_nets self l a c)
  end.

End Agent.

(** ** The trainer (trainer.py) *)

Module Trainer.

Section WithExternal.

Variable X : External.

(** A torch optimiser over one parameter group: its internal moments, its
    learning rate and the number of [step()] calls it has seen. *)
Record Optimizer := {
  opt_state : AdamState X;
  lr : Q;
  opt_steps : nat
}.

Record t := {
  config : Config;
  alpha : Q;
  target_entropy : Q;
  log_alpha : Q;
  alpha_optimizer : Optimizer;
  latent : Net;
  actor : Net;
  critic : Net;
  critic_target : Net;
  pre_training_step : nat;
  training_step : nat;
  latent_optimizer : Optimizer;
  actor_optimizer : Optimizer;
  critic_optimizer : Optimizer
}.

Definition set_latent (self : t) (net : Net) (o : Optimizer) : t :=
  {| config := config self; alpha := alpha self;
     target_entropy := target_entropy self; log_alpha := log_alpha self;
     alpha_optimizer := alpha_optimizer self;
     latent := net; actor := actor self; critic := critic self;
     critic_target := critic_target self;
     pre_training_step := pre_training_step self;
     training_step := training_step self;
     latent_optimizer := o; actor_optimizer := actor_optimizer self;
     critic_optimizer := critic_optimizer self |}.

Definition set_actor (self : t) (net : Net) (o : Optimizer) : t :=
  {| config := config self; alpha := alpha self;
     target_entropy := target_entropy self; log_alpha := log_alpha self;
     alpha_optimizer := alpha_optimizer self;
     latent := latent self; actor := net; critic := critic self;
     critic_target := critic_target self;
     pre_training_step := pre_training_step self;
     training_step := training_step self;
     latent_optimizer := latent_optimizer self; actor_optimizer := o;
     critic_optimizer := critic_optimizer self |}.

Definition set_critic (self : t) (net : Net) (o : Optimizer) : t :=
  {| config := config self; alpha := alpha self;
     target_entropy := target_entropy self; log_alpha := log_alpha self;
     alpha_optimizer := alpha_optimizer self;
     latent := latent self; actor := actor self; critic := net;
     critic_target := critic_target self;
     pre_training_step := pre_training_step self;
     training_step := training_step self;
     latent_optimizer := latent_optimizer self;
     actor_optimizer := actor_optimizer self; critic_optimizer := o |}.

Definition set_critic_target (self : t) (net : Net) : t :=
  {| config := config self; alpha := alpha self;
     target_entropy := target_entropy self; log_alpha := log_alpha self;
     alpha_optimizer := alpha_optimizer self;
     latent := latent self; actor := actor self; critic := critic self;
     critic_target := net;
     pre_training_step := pre_training_step self;
     training_step := training_step self;
     latent_optimizer := latent_optimizer self;
     actor_optimizer := actor_optimizer self;
     critic_optimizer := critic_optimizer self |}.

Definition set_alpha (self : t) (a la : Q) (o : Optimizer) : t :=
  {| config := config self; alpha := a;
     target_entropy := target_entropy self; log_alpha := la;
     alpha_optimizer := o;
     latent := latent self; actor := actor self; critic := critic self;
     critic_target := critic_target self;
     pre_training_step := pre_training_step self;
     training_step := training_step self;
     latent_optimizer := latent_optimizer self;
     actor_optimizer := actor_optimizer self;
     critic_optimizer := critic_optimizer self |}.

Definition set_steps (self : t) (pre tr : nat) : t :=
  {| config := config self; alpha := alpha self;
     target_entropy := target_entropy self; log_alpha := log_alpha self;
     alpha_optimizer := alpha_optimizer self;
     latent := latent self; actor := actor self; critic := critic self;
     critic_target := critic_target self;
     pre_training_step := pre; training_step := tr;
     latent_optimizer := latent_optimizer self;
     actor_optimizer := actor_optimizer self;
     critic_optimizer := critic_optimizer self |}.

(** [optimizer.zero_grad(); loss.backward(); optimizer.step()]. *)
Definition optimize (o : Optimizer) (loss : Net -> option Q) (net : Net)
  : Optimizer * Net :=
  let '(st, net') := adam X (opt_state o) (lr o) loss net in
  ({| opt_state := st; lr := lr o; opt_steps := S (opt_steps o) |}, net').

(** [ExponentialLR.step()]: the learning rate is multiplied by the decay. *)
Definition scheduler_step (gamma : Q) (o : Optimizer) : Optimizer :=
  {| opt_state := opt_state o; lr := lr o * gamma; opt_steps := opt_steps o |}.

(** What the trainer sends to its collaborators (replay buffer, shared
    storage, logger, data generator), newest first in a trace. *)
Inductive Event :=
| ResetEnvs
| SampleLatentRequest
| SampleRequest
| StepEnvsAsync
| StepEnvsWait
| Sleep
| SetInfoPretrainingStep (n : nat)
| SetInfoWeights (weights : StateDict * StateDict * StateDict)
| SaveCheckpoint
| SetInfoTrainingStep (n : nat) (run_eval_interval : bool)
| UpdateScalarsLatent (latent_lr : Q)
| UpdateScalars (latent_lr actor_lr critic_lr entropy : Q)
| LogLatentTerms (kld image reward align contact : Q)
| LogTrainingStep (latent_loss actor_loss critic_loss alpha_loss : Q).

(** [processBatch] (lines 333-341): the four tensors, moved to the device. *)
Definition processBatch (self : t) (batch : Batch)
  : (list (list Frame) * list (list Vec)) * list (list Vec) * list Vec * list Vec :=
  ((obs_vision batch, obs_force batch), action_batch batch,
   reward_batch batch, done_batch batch).

(** [updateLatent] (lines 236-256): the new trainer, the logged event and
    the returned sum of the loss terms. *)
Definition updateLatent (self : t) (eps : Noise X) (batch : Batch)
  : t * Event * Q :=
  let '(kld, image, reward, align, contact) :=
    calculate_loss X (latent self) eps batch (max_force (config self)) in
  let loss (theta : Net) : option Q :=
    let '(k, i, r, a, c) :=
      calculate_loss X theta eps batch (max_force (config self)) in
    Some (k + i + r + a + c) in
  let '(o, net) := optimize (latent_optimizer self) loss (latent self) in
  (set_latent self net o,
   LogLatentTerms kld image reward align contact,
   kld + reward + image + align + contact).

(** [updateLatentAlign] (lines 258-267). *)
Definition updateLatentAlign (self : t) (eps : Noise X) (batch : Batch) : t * Q :=
  let align_loss := calculate_alignment_loss X (latent self) eps batch in
  let loss (theta : Net) : option Q :=
    Some (calculate_alignment_loss X theta eps batch) in
  let '(o, net) := optimize (latent_optimizer self) loss (latent self) in
  (set_latent self net o, align_loss).

(** The critic target of [updateSLAC] (lines 294-295). *)
Definition target_q (self : t) (reward_batch done_batch : list Vec)
    (next_q1 next_q2 next_log_pi : Vec) : option Vec :=
  m <- ew2 Qmin next_q1 next_q2 ;;
  next_q <- ew2 Qminus m (pointwise (Qmult (alpha self)) next_log_pi) ;;
  reward <- last_slot reward_batch ;;
  done <- last_slot done_batch ;;
  let not_done := pointwise (fun d => 1 - d) done in
  let scaled := pointwise (fun x => x * discount (config self)) not_done in
  bootstrap <- ew2 Qmult scaled next_q ;;
  ew2 Qplus reward bootstrap.

(** The critic loss (lines 298-301) as a function of the critic's parameters. *)
Definition critic_loss_of (z action : list Vec) (target : Vec) (theta : Net)
  : option Q :=
  let '(curr_q1, curr_q2) := critic_forward X theta z action in
  l1 <- mse_loss curr_q1 target ;;
  l2 <- mse_loss curr_q2 target ;;
  Some (l1 + l2).

(** The actor loss (lines 311-314) as a function of the actor's parameters. *)
Definition actor_loss_of (self : t) (critic_net : Net) (eps : Noise X)
    (z feature_action : list Vec) (theta : Net) : option Q :=
  let '(action, log_pi) := actor_sample X theta eps feature_action in
  let '(q1, q2) := critic_forward X critic_net z action in
  m <- ew2 Qmin q1 q2 ;;
  d <- ew2 Qminus m (pointwise (Qmult (alpha self)) log_pi) ;;
  Some (- mean d).

(** The temperature loss (line 321) as a function of [log_alpha]. *)
Definition alpha_loss_of (self : t) (log_pi : Vec) (la : Q) : Q :=
  - mean (pointwise (fun x => la * (x + target_entropy self)) log_pi).

(** The first part of [updateSLAC] (lines 279-301): the latents, the target
    and the critic loss function. *)
Definition critic_objective (self : t) (eps1 eps2 : Noise X) (batch : Batch)
  : option (list Vec * list Vec * Vec * (Net -> option Q)) :=
  let '(obs_batch, action_batch, reward_batch, done_batch) :=
    processBatch self batch in
  let feature_ := encoder X (latent self) (fst obs_batch) (snd obs_batch) in
  let z_ := sample_posterior X (latent self) eps1 feature_ action_batch in
  z <- before_last_slot z_ ;;
  next_z <- last_slot z_ ;;
  let '(feature_action, next_feature_action) :=
    create_feature_actions X feature_ action_batch in
  let '(next_action, next_log_pi) :=
    actor_sample X (actor self) eps2 next_feature_action in
  let '(next_q1, next_q2) :=
    critic_forward X (critic_target self) next_z next_action in
  target <- target_q self reward_batch done_batch next_q1 next_q2 next_log_pi ;;
  last_action <- last_slot action_batch ;;
  Some (z, feature_action, target, critic_loss_of z last_action target).

(** [updateSLAC] (lines 279-331): the new trainer, the TD error and the
    losses (actor, critic, alpha, entropy). *)
Definition updateSLAC (self : t) (eps1 eps2 eps3 : Noise X) (batch : Batch)
  : option (t * (Vec * (Q * Q * Q * Q))) :=
  '(z, feature_action, target, critic_loss_fn) <-
    critic_objective self eps1 eps2 batch ;;
  last_action <- last_slot (action_batch batch) ;;
  critic_loss <- critic_loss_fn (critic self) ;;
  let '(curr_q1, curr_q2) := critic_forward X (critic self) z last_action in
  e1 <- ew2 (fun q y => Qabs (q - y)) curr_q1 target ;;
  e2 <- ew2 (fun q y => Qabs (q - y)) curr_q2 target ;;
  e <- ew2 Qplus e1 e2 ;;
  let td_error := pointwise (Qmult (1 # 2)) e in
  let '(co, critic') := optimize (critic_optimizer self) critic_loss_fn (critic self) in
  let self1 := set_critic self critic' co in
  let actor_loss_fn := actor_loss_of self1 critic' eps3 z feature_action in
  let '(_, log_pi) := actor_sample X (actor self1) eps3 feature_action in
  actor_loss <- actor_loss_fn (actor self1) ;;
  let '(ao, actor') := optimize (actor_optimizer self1) actor_loss_fn (actor self1) in
  let self2 := set_actor self1 actor' ao in
  let alpha_loss := alpha_loss_of self2 log_pi (log_alpha self2) in
  let o := alpha_optimizer self2 in
  let '(st, la) :=
    adam_scalar X (opt_state o) (lr o) (alpha_loss_of self2 log_pi) (log_alpha self2) in
  let o' := {| opt_state := st; lr := lr o; opt_steps := S (opt_steps o) |} in
  let entropy := - mean log_pi in
  let self3 := set_alpha self2 (exp X la) la o' in
  Some (self3, (td_error, (actor_loss, critic_loss, alpha_loss, entropy))).

(** The loop of [softTargetUpdate] (lines 347-348) over the zipped parameter
    lists: [t.copy_(tau * l + (1.0 - tau) * t)]; parameters beyond the
    shorter list are not visited. *)
Fixpoint soft_update (tau : Q) (target live : Net) : option Net :=
  match target, live with
  | (k, t_param) :: target', (_, l_param) :: live' =>
      mixed <- ew2 Qplus (pointwise (Qmult tau) l_param)
                         (pointwise (Qmult (1 - tau)) t_param) ;;
      t_new <- copy_ t_param mixed ;;
      rest <- soft_update tau target' live' ;;
      Some ((k, t_new) :: rest)
  | _, _ => Some target
  end.

Definition softTargetUpdate (self : t) : option t :=
  net <- soft_update (tau (config self)) (critic_target self) (critic self) ;;
  Some (set_critic_target self net).

(** *** [continuousUpdateWeights] (lines 131-234) as a transition system

    One program point per statement of the method.  The other ray workers
    run concurrently with the trainer: what they have done by the time a
    statement executes is the [Input] of that step (the value a poll of the
    shared storage returns, the batch a resolved future holds, the random
    draws the statement consumes). *)

Inductive PC :=
| Start          (* 131: data_generator.resetEnvs *)
| PreFetch       (* 134: next_batch = replay_buffer.sampleLatent.remote *)
| PreTop         (* 135-136: loop test of the pretraining loop *)
| PreGet         (* 137-139: batch = ray.get(next_batch)[1]; prefetch *)
| PreLatent      (* 141: updateLatent *)
| PreAlign       (* 142: updateLatentAlign *)
| PrePublish     (* 145-149: setInfo pretraining_step *)
| PreLog         (* 151-155: updateScalars *)
| PreIncr        (* 157: pre_training_step += 1 *)
| TrFetch        (* 160: next_batch = replay_buffer.sample.remote *)
| TrTop          (* 161-162: loop test of the policy loop *)
| TrPauseChk     (* 165: poll of pause_training *)
| TrSleep        (* 166-167: sleep; continue *)
| TrStepAsync    (* 169: stepEnvsAsync *)
| TrGet          (* 171-172: batch = ray.get(next_batch)[1]; prefetch *)
| TrLatent       (* 174: updateLatent *)
| TrAlign        (* 175: updateLatentAlign *)
| TrSLAC         (* 176: updateSLAC *)
| TrIncr         (* 178: training_step += 1 *)
| TrStepWait     (* 180: stepEnvsWait *)
| TrSoft         (* 183: softTargetUpdate *)
| TrLR           (* 186-188: learning-rate schedulers *)
| TrCkpt         (* 191-210: checkpoint *)
| TrPublish      (* 213-218: setInfo training_step, run_eval_interval *)
| TrLog          (* 219-234: updateScalars, logTrainingStep *)
| Done           (* the method has returned *)
| Crashed.       (* an exception has left the method *)

Record Input := {
  in_terminate : bool;       (* shared_storage.getInfo('terminate') *)
  in_pause : bool;           (* shared_storage.getInfo('pause_training') *)
  in_batch : Batch;          (* ray.get(next_batch)[1] *)
  in_noise : nat -> Noise X  (* the random draws available to the statement *)
}.

Record Machine := {
  pc : PC;
  self : t;
  batch : option Batch;           (* the local [batch], unbound at first *)
  latent_loss : Q;                (* the local [latent_loss] *)
  loss : Q * Q * Q * Q;           (* the local [loss] *)
  trace : list Event
}.

Definition goto (p : PC) (m : Machine) : Machine :=
  {| pc := p; self := self m; batch := batch m;
     latent_loss := latent_loss m; loss := loss m; trace := trace m |}.

Definition emit (e : Event) (m : Machine) : Machine :=
  {| pc := pc m; self := self m; batch := batch m;
     latent_loss := latent_loss m; loss := loss m; trace := e :: trace m |}.

Definition with_self (s : t) (m : Machine) : Machine :=
  {| pc := pc m; self := s; batch := batch m;
     latent_loss := latent_loss m; loss := loss m; trace := trace m |}.

Definition with_batch (b : Batch) (m : Machine) : Machine :=
  {| pc := pc m; self := self m; batch := Some b;
     latent_loss := latent_loss m; loss := loss m; trace := trace m |}.

Definition with_latent_loss (l : Q) (m : Machine) : Machine :=
  {| pc := pc m; self := self m; batch := batch m;
     latent_loss := l; loss := loss m; trace := trace m |}.

Definition with_loss (l : Q * Q * Q * Q) (m : Machine) : Machine :=
  {| pc := pc m; self := self m; batch := batch m;
     latent_loss := latent_loss m; loss := l; trace := trace m |}.

(** The machine at the call of [continuousUpdateWeights]. *)
Definition enter (s : t) : Machine :=
  {| pc := Start; self := s; batch := None;
     latent_loss := 0; loss := (0, 0, 0, 0); trace := [] |}.

(** [step % interval == 0]; a [ZeroDivisionError] when the interval is 0. *)
Definition divides (interval step : nat) : option bool :=
  match interval with
  | O => None
  | S _ => Some (step mod interval =? 0)%nat
  end.

(** [step > 0 and step % interval == 0], with Python's short circuit. *)
Definition positive_and_divides (interval step : nat) : option bool :=
  if (0 <? step)%nat then divides interval step else Some false.

Definition do_updateLatent (next : PC) (i : Input) (m : Machine) : Machine :=
  match batch m with
  | None => goto Crashed m
  | Some b =>
      let '(s, ev, l) := updateLatent (self m) (in_noise i 0%nat) b in
      goto next (with_latent_loss l (emit ev (with_self s m)))
  end.

Definition do_updateLatentAlign (next : PC) (i : Input) (m : Machine) : Machine :=
  match batch m with
  | None => goto Crashed m
  | Some b =>
      let '(s, _) := updateLatentAlign (self m) (in_noise i 0%nat) b in
      goto next (with_self s m)
  end.

Definition step (i : Input) (m : Machine) : Machine :=
  let s := self m in
  let cfg := config s in
  match pc m with
  | Start => goto PreFetch (emit ResetEnvs m)
  | PreFetch => goto PreTop (emit SampleLatentRequest m)
  | PreTop =>
      if (pre_training_step s <? pretraining_steps cfg)%nat
         && negb (in_terminate i)
      then goto PreGet m else goto TrFetch m
  | PreGet => goto PreLatent (emit SampleLatentRequest (with_batch (in_batch i) m))
  | PreLatent => do_updateLatent PreAlign i m
  | PreAlign => do_updateLatentAlign PrePublish i m
  | PrePublish =>
      goto PreLog (emit (SetInfoPretrainingStep (pre_training_step s)) m)
  | PreLog => goto PreIncr (emit (UpdateScalarsLatent (lr (latent_optimizer s))) m)
  | PreIncr =>
      goto PreTop
        (with_self (set_steps s (pre_training_step s + 1) (training_step s)) m)
  | TrFetch => goto TrTop (emit SampleRequest m)
  | TrTop =>
      if (training_step s <? training_steps cfg)%nat && negb (in_terminate i)
      then goto TrPauseChk m else goto Done m
  | TrPauseChk => if in_pause i then goto TrSleep m else goto TrStepAsync m
  | TrSleep => goto TrTop (emit Sleep m)
  | TrStepAsync => goto TrGet (emit StepEnvsAsync m)
  | TrGet => goto TrLatent (emit SampleRequest (with_batch (in_batch i) m))
  | TrLatent => do_updateLatent TrAlign i m
  | TrAlign => do_updateLatentAlign TrSLAC i m
  | TrSLAC =>
      match batch m with
      | None => goto Crashed m
      | Some b =>
          match updateSLAC s (in_noise i 0%nat) (in_noise i 1%nat)
                           (in_noise i 2%nat) b with
          | None => goto Crashed m
          | Some (s', (_, l)) => goto TrIncr (with_loss l (with_self s' m))
          end
      end
  | TrIncr =>
      goto TrStepWait
        (with_self (set_steps s (pre_training_step s) (training_step s + 1)) m)
  | TrStepWait => goto TrSoft (emit StepEnvsWait m)
  | TrSoft =>
      match softTargetUpdate s with
      | None => goto Crashed m
      | Some s' => goto TrLR (with_self s' m)
      end
  | TrLR =>
      match positive_and_divides (lr_decay_interval cfg) (training_step s) with
      | None => goto Crashed m
      | Some true =>
          let ao := scheduler_step (lr_decay cfg) (actor_optimizer s) in
          let co := scheduler_step (lr_decay cfg) (critic_optimizer s) in
          goto TrCkpt
            (with_self (set_critic (set_actor s (actor s) ao) (critic s) co) m)
      | Some false => goto TrCkpt m
      end
  | TrCkpt =>
      match divides (checkpoint_interval cfg) (training_step s) with
      | None => goto Crashed m
      | Some true =>
          let m1 := emit (SetInfoWeights (state_dict (latent s),
                                          state_dict (actor s),
                                          state_dict (critic s))) m in
          goto TrPublish (if save_model cfg then emit SaveCheckpoint m1 else m1)
      | Some false => goto TrPublish m
      end
  | TrPublish =>
      match positive_and_divides (eval_interval cfg) (training_step s) with
      | None => goto Crashed m
      | Some run_eval =>
          goto TrLog (emit (SetInfoTrainingStep (training_step s) run_eval) m)
      end
  | TrLog =>
      let '(actor_loss, critic_loss, alpha_loss, entropy) := loss m in
      goto TrTop
        (emit (LogTrainingStep (latent_loss m) actor_loss critic_loss alpha_loss)
           (emit (UpdateScalars (lr (latent_optimizer s)) (lr (actor_optimizer s))
                                (lr (critic_optimizer s)) entropy) m))
  | Done => m
  | Crashed => m
  end.

(** A run: one input per executed statement. *)
Definition run (inputs : list Input) (m : Machine) : Machine :=
  fold_left (fun m i => step i m) inputs m.

(** The statements up to the entry of the policy loop: the pretraining
    phase with its set-up, and the prefetch that follows it. *)
Definition before_policy (p : PC) : bool :=
  match p with
  | Start | PreFetch | PreTop | PreGet | PreLatent | PreAlign
  | PrePublish | PreLog | PreIncr | TrFetch => true
  | _ => false
  end.

(** Inside the pretraining loop (lines 135-157). *)
Definition in_pretraining (p : PC) : bool :=
  match p with
  | PreTop | PreGet | PreLatent | PreAlign | PrePublish | PreLog | PreIncr => true
  | _ => false
  end.

(** Inside the body of the policy loop, past the loop test. *)
Definition in_cycle (p : PC) : bool :=
  match p with
  | TrStepAsync | TrGet | TrLatent | TrAlign | TrSLAC | TrIncr | TrStepWait
  | TrSoft | TrLR | TrCkpt | TrPublish | TrLog => true
  | _ => false
  end.

(** Inside the policy loop (lines 161-234). *)
Definition in_policy_loop (p : PC) : bool :=
  match p with
  | TrTop | TrPauseChk | TrSleep => true
  | _ => in_cycle p
  end.

Definition halted (p : PC) : bool :=
  match p with
  | Done | Crashed => true
  | _ => false
  end.

Definition is_start (e : Event) : bool :=
  match e with StepEnvsAsync => true | _ => false end.

Definition is_end (e : Event) : bool :=
  match e with LogTrainingStep _ _ _ _ => true | _ => false end.

(** Update cycles of the policy loop begun (first statement executed) and
    completed (last statement executed), counted on the trace. *)
Definition cycles_started (m : Machine) : nat :=
  List.length (filter is_start (trace m)).

Definition cycles_completed (m : Machine) : nat :=
  List.length (filter is_end (trace m)).

End WithExternal.

End Trainer.

(** ** Vocabulary of the statements about the agent *)

Module AgentSpec.

Import Agent.

Definition proper_ranges (self : Agent.t) : Prop :=
  proper (p_range self) /\ proper (dx_range self) /\ proper (dy_range self) /\
  proper (dz_range self) /\ proper (dtheta_range self).

(** Every range has its lower bound at or below its upper bound. *)
Definition ordered_ranges (self : Agent.t) : Prop :=
  Forall (fun r : Range => fst r <= snd r)
    [p_range self; dx_range self; dy_range self; dz_range self;
     dtheta_range self].

Definition unit_interval (u : Q) : Prop := -1 <= u <= 1.

(** A row [[p; dx; dy; dz; dtheta]] whose components satisfy five predicates. *)
Definition row5 (P0 P1 P2 P3 P4 : Q -> Prop) (r : Vec) : Prop :=
  match r with
  | [x0; x1; x2; x3; x4] => P0 x0 /\ P1 x1 /\ P2 x2 /\ P3 x3 /\ P4 x4
  | _ => False
  end.

(** The row built from the first five components of [r], one function each. *)
Definition map5 (f0 f1 f2 f3 f4 : Q -> Q) (r : Vec) : Vec :=
  [f0 (nth 0 r 0); f1 (nth 1 r 0); f2 (nth 2 r 0); f3 (nth 3 r 0);
   f4 (nth 4 r 0)].

Definition in_ranges (self : Agent.t) : Vec -> Prop :=
  row5 (within (p_range self)) (within (dx_range self))
       (within (dy_range self)) (within (dz_range self))
       (within (dtheta_range self)).

Definition in_unit (r : Vec) : Prop :=
  row5 unit_interval unit_interval unit_interval unit_interval unit_interval r.

Definition decode_row (self : Agent.t) : Vec -> Vec :=
  map5 (decode1 (p_range self)) (decode1 (dx_range self))
       (decode1 (dy_range self)) (decode1 (dz_range self))
       (decode1 (dtheta_range self)).

Definition unscale_row (self : Agent.t) : Vec -> Vec :=
  map5 (unscale1 (p_range self)) (unscale1 (dx_range self))
       (unscale1 (dy_range self)) (unscale1 (dz_range self))
       (unscale1 (dtheta_range self)).

Definition clamp_range (r : Range) : Q -> Q := clamp1 (fst r) (snd r).

Definition clamp_row (self : Agent.t) : Vec -> Vec :=
  map5 (clamp_range (p_range self)) (clamp_range (dx_range self))
       (clamp_range (dy_range self)) (clamp_range (dz_range self))
       (clamp_range (dtheta_range self)).

(** The five ranges of an agent, as a list. *)
Definition ranges (self : Agent.t) : list Range :=
  [p_range self; dx_range self; dy_range self; dz_range self;
   dtheta_range self].

(** The last entry of a window. *)
Definition last_error {A : Type} (w : list A) : option A :=
  match rev w with
  | [] => None
  | x :: _ => Some x
  end.

(** Window [w'] is window [w] shifted by one slot with [x] as newest entry:
    the size is kept, the last slot holds [x], and slot [i] holds what slot
    [i + 1] held. *)
Definition shifted {A : Type} (w w' : list A) (x : A) : Prop :=
  length w' = length w /\
  last_error w' = Some x /\
  forall i, (S i < length w)%nat -> nth_error w' i = nth_error w (S i).

(** Buffer [h'] is buffer [h] with every environment's window shifted and
    the rows of [v] as newest entries, one per environment; with two slots
    or more, the first slot holds what the second slot held. *)
Definition buffer_shifted {A : Type} (h h' : list (list A)) (v : list A) : Prop :=
  length h' = length h /\
  forall e w, nth_error h e = Some w ->
    exists w' x, nth_error h' e = Some w' /\ nth_error v e = Some x /\
      shifted w w' x /\
      ((2 <= length w)%nat -> nth_error w' 0 = nth_error w 1).

(** Every window of the buffer has [k] slots, one window per environment. *)
Definition windows {A : Type} (envs k : nat) (h : list (list A)) : Prop :=
  length h = envs /\ Forall (fun w => length w = k) h.

(** The shape of the three history buffers as the code keeps it: [seq_len]
    slots of vision and force, [seq_len - 1] slots of actions. *)
Definition history_shape (self : Agent.t) : Prop :=
  let cfg := config self in
  windows (num_data_gen_envs cfg) (seq_len cfg) (vision_history self) /\
  windows (num_data_gen_envs cfg) (seq_len cfg) (force_history self) /\
  windows (num_data_gen_envs cfg) (seq_len cfg - 1) (action_history self).

(** The shape with [seq_len] slots in all three buffers. *)
Definition uniform_history_shape (self : Agent.t) : Prop :=
  let cfg := config self in
  windows (num_data_gen_envs cfg) (seq_len cfg) (vision_history self) /\
  windows (num_data_gen_envs cfg) (seq_len cfg) (force_history self) /\
  windows (num_data_gen_envs cfg) (seq_len cfg) (action_history self).

Definition histories_zero (self : Agent.t) : Prop :=
  Forall (Forall all_zero3) (vision_history self) /\
  Forall (Forall all_zero1) (force_history self) /\
  Forall (Forall all_zero1) (action_history self).

(** Two state dicts hold the same tensor under every name. *)
Definition same_dict (a b : StateDict) : Prop :=
  forall k, lookup k a = lookup k b.

(** A state dict a module accepts: its names are those of the module and
    the sizes agree. *)
Definition loadable (m : Net) (sd : StateDict) : Prop :=
  (forall k, In k (keys m) <-> In k (keys sd)) /\
  (forall k t v, In (k, t) m -> lookup k sd = Some v -> length v = length t).

(** The tensor a dict holds under a name, empty when the name is absent. *)
Definition from_dict (sd : StateDict) (k : string) : Vec :=
  match lookup k sd with
  | Some v => v
  | None => []
  end.

End AgentSpec.

Import AgentSpec.

(** ** Vocabulary of the statements about the trainer *)

Module TrainerSpec.

(** The Polyak average of one target entry [t] with one live entry [l]. *)
Definition polyak (tau t l : Q) : Q := tau * l + (1 - tau) * t.

(** The entry of index [b] of a one-dimensional tensor. *)
Definition at_ (t : Vec) (b : nat) : Q := nth b t 0.

(** The last entry of row [b] of a tensor of shape [B, T]. *)
Definition last_of_row (t : list Vec) (b : nat) : Q := last (nth b t []) 0.

(** A batch of [n] samples whose reward and done sequences are not empty. *)
Definition batch_of (n : nat) (reward_batch done_batch : list Vec) : Prop :=
  length reward_batch = n /\ length done_batch = n /\
  Forall (fun r => r <> []) reward_batch /\
  Forall (fun d => d <> []) done_batch.

(** What the policy phase owns: the actor and the critics with their
    optimisers (moments, learning rate, number of [step()] calls), the
    temperature with its optimiser, and the policy step counter. *)
Definition policy_part {X : External} (s : Trainer.t X) :=
  (Trainer.actor X s, Trainer.critic X s, Trainer.critic_target X s,
   Trainer.actor_optimizer X s, Trainer.critic_optimizer X s,
   (Trainer.alpha X s, Trainer.log_alpha X s, Trainer.alpha_optimizer X s),
   Trainer.training_step X s).







End TrainerSpec.

Import TrainerSpec.

(** ** Stand-ins for the collaborators and a small configuration

    Used to run the model on concrete inputs. *)

Module Stub.

Definition external : External :=
  {| Noise := unit;
     AdamState := unit;
     centerCrop := fun vision _ => vision;
     normalizeForce := fun force m => map (map (fun x => x / m)) force;
     encoder := fun _ vh _ => map (map (fun _ => [0])) vh;
     sample_posterior := fun _ _ feature _ => feature;
     create_feature_actions := fun feature _ =>
       (map (@concat Q) feature, map (@concat Q) feature);
     actor_sample := fun _ _ z =>
       (map (fun _ => [0; 1 # 2; 0; 0; 0]) z, map (fun _ => - (1)) z);
     critic_forward := fun _ z _ => (map (fun _ => 1) z, map (fun _ => 2) z);
     calculate_loss := fun _ _ _ _ => (1, 1, 1, 1, 1);
     calculate_alignment_loss := fun _ _ _ => 1;
     adam := fun st _ _ net => (st, map (fun kv => (fst kv, map (Qplus 1) (snd kv))) net);
     adam_scalar := fun st _ _ la => (st, la);
     exp := fun x => 1 + x |}.

Definition cfg : Config :=
  {| dpos := 1 # 20; drot := 1 # 4; action_dim := 5; seq_len := 2;
     vision_channels := 1; vision_size := 1; force_dim := 2; proprio_dim := 1;
     num_data_gen_envs := 1; max_force := 10; discount := 9 # 10;
     tau := 1 # 100; init_temp := 1 # 100;
     pretraining_steps := 1; training_steps := 1;
     lr_decay := 95 # 100; lr_decay_interval := 500;
     checkpoint_interval := 1; eval_interval := 500; save_model := true |}.

Definition net (x : Q) : Net := [("weight"%string, [x; x]); ("bias"%string, [x])].

Definition agent : Agent.t :=
  {| Agent.config := cfg;
     Agent.p_range := (0, 1);
     Agent.dx_range := (- dpos cfg, dpos cfg);
     Agent.dy_range := (- dpos cfg, dpos cfg);
     Agent.dz_range := (- dpos cfg, dpos cfg);
     Agent.dtheta_range := (- drot cfg, drot cfg);
     Agent.action_shape := 5;
     Agent.vision_history := [[ [[[1]]]; [[[2]]] ]];
     Agent.force_history := [[ [1; 1]; [2; 2] ]];
     Agent.action_history := [[ [0; 0; 0; 0; 0] ]];
     Agent.latent := net 1; Agent.actor := net 2; Agent.critic := net 3 |}.

Definition batch : Batch :=
  {| obs_vision := [[ [[[1]]]; [[[2]]] ]];
     obs_force := [[ [1; 1]; [2; 2] ]];
     action_batch := [[ [0; 0; 0; 0; 0] ]];
     reward_batch := [[0; 1]];
     done_batch := [[0; 0]] |}.

Definition optimizer : Trainer.Optimizer external :=
  Trainer.Build_Optimizer external tt (1 # 1000) 0.

Definition trainer : Trainer.t external :=
  Trainer.Build_t external cfg (1 # 100) (- (5)) 0 optimizer
    (net 1) (net 2) (net 3) (net 4) 0 0 optimizer optimizer optimizer.

Definition input (terminate pause : bool) : Trainer.Input external :=
  Trainer.Build_Input external terminate pause batch (fun _ => tt).

End Stub.

(** ** Vocabulary of the further statements about the trainer *)

Module LoopSpec.

(** Entry [j] of parameter tensor [i]. *)
Definition entry (ps : list Vec) (i j : nat) : Q := nth j (nth i ps []) 0.

Fixpoint qpow (q : Q) (k : nat) : Q :=
  match k with
  | O => 1
  | S k' => q * qpow q k'
  end.

(** [k] calls of [softTargetUpdate] in a row. *)
Fixpoint softTargetUpdates {X : External} (k : nat) (s : Trainer.t X)
  : option (Trainer.t X) :=
  match k with
  | O => Some s
  | S k' => s' <- Trainer.softTargetUpdate X s ;; softTargetUpdates k' s'
  end.

(** The configuration and the two step counters. *)
Definition loop_part {X : External} (s : Trainer.t X) :=
  (Trainer.config X s, Trainer.pre_training_step X s,
   Trainer.training_step X s).


(** The terminate flag is unset at every poll of the run. *)
Definition never_terminate {X : External} (inputs : list (Trainer.Input X))
  : Prop :=
  Forall (fun i => Trainer.in_terminate X i = false) inputs.

(** The pause flag is set and the terminate flag unset at every poll. *)
Definition paused {X : External} (inputs : list (Trainer.Input X)) : Prop :=
  Forall (fun i => Trainer.in_terminate X i = false /\
                   Trainer.in_pause X i = true) inputs.

(** Inside the body of the pretraining loop. *)
Definition pre_body (p : Trainer.PC) : bool :=
  match p with
  | Trainer.PreGet | Trainer.PreLatent | Trainer.PreAlign
  | Trainer.PrePublish | Trainer.PreLog | Trainer.PreIncr => true
  | _ => false
  end.

(** Past the test of the policy loop, before [training_step += 1]. *)
Definition awaiting_incr (p : Trainer.PC) : bool :=
  match p with
  | Trainer.TrPauseChk | Trainer.TrSleep | Trainer.TrStepAsync
  | Trainer.TrGet | Trainer.TrLatent | Trainer.TrAlign | Trainer.TrSLAC
  | Trainer.TrIncr => true
  | _ => false
  end.

(** In an update cycle, after [training_step += 1]. *)
Definition after_incr (p : Trainer.PC) : bool :=
  match p with
  | Trainer.TrStepWait | Trainer.TrSoft | Trainer.TrLR | Trainer.TrCkpt
  | Trainer.TrPublish | Trainer.TrLog => true
  | _ => false
  end.

(** The pretraining loop has been left (and no exception was raised). *)
Definition past_pretraining (p : Trainer.PC) : bool :=
  match p with
  | Trainer.TrFetch | Trainer.Done => true
  | _ => Trainer.in_policy_loop p
  end.

(** The three program points of the pause poll. *)
Definition idle (p : Trainer.PC) : bool :=
  match p with
  | Trainer.TrTop | Trainer.TrPauseChk | Trainer.TrSleep => true
  | _ => false
  end.

Definition is_weights (e : Trainer.Event) : bool :=
  match e with Trainer.SetInfoWeights _ => true | _ => false end.

Definition is_save (e : Trainer.Event) : bool :=
  match e with Trainer.SaveCheckpoint => true | _ => false end.

(** Checkpoints published to the shared storage, and saved to disk. *)
Definition weights_published {X : External} (m : Trainer.Machine X) : nat :=
  length (filter is_weights (Trainer.trace X m)).

Definition checkpoints_saved {X : External} (m : Trainer.Machine X) : nat :=
  length (filter is_save (Trainer.trace X m)).

(** 1 between the checkpoint statement (executed) and the end of the
    cycle, 0 elsewhere. *)
Definition past_checkpoint (p : Trainer.PC) : nat :=
  match p with
  | Trainer.TrPublish | Trainer.TrLog => 1
  | _ => 0
  end.

(** What a published counter looks like: a pretraining step below the
    configured number of pretraining steps; a policy step that is positive,
    with the evaluation flag telling whether the evaluation interval
    divides it. *)
Definition published_ok (cfg : Config) (e : Trainer.Event) : Prop :=
  match e with
  | Trainer.SetInfoPretrainingStep n => (n < pretraining_steps cfg)%nat
  | Trainer.SetInfoTrainingStep n run_eval =>
      (0 < n)%nat /\ (eval_interval cfg <> 0)%nat /\
      run_eval = (n mod eval_interval cfg =? 0)%nat
  | _ => True
  end.

(** The intervals a run must have found non-zero to be where it is: the
    modulo of the scheduler statement to get to the checkpoint statement,
    that of the checkpoint statement to get to the publication, that of
    the publication to get to the last statement of the cycle. *)
Definition intervals_passed (cfg : Config) (p : Trainer.PC) : Prop :=
  match p with
  | Trainer.TrCkpt => lr_decay_interval cfg <> 0%nat
  | Trainer.TrPublish =>
      lr_decay_interval cfg <> 0%nat /\ checkpoint_interval cfg <> 0%nat
  | Trainer.TrLog =>
      lr_decay_interval cfg <> 0%nat /\ checkpoint_interval cfg <> 0%nat /\
      eval_interval cfg <> 0%nat
  | _ => True
  end.

(** The numbers of [step()] calls of the four optimisers and the two step
    counters. *)
Definition account {X : External} (s : Trainer.t X) :=
  (Trainer.opt_steps X (Trainer.latent_optimizer X s),
   Trainer.opt_steps X (Trainer.critic_optimizer X s),
   Trainer.opt_steps X (Trainer.actor_optimizer X s),
   Trainer.opt_steps X (Trainer.alpha_optimizer X s),
   Trainer.pre_training_step X s,
   Trainer.training_step X s).

(** Latent optimiser steps already taken in the iteration in flight. *)
Definition latent_steps_in_flight (p : Trainer.PC) : nat :=
  match p with
  | Trainer.PreAlign | Trainer.TrAlign => 1
  | Trainer.PrePublish | Trainer.PreLog | Trainer.PreIncr
  | Trainer.TrSLAC | Trainer.TrIncr => 2
  | _ => 0
  end.

(** 1 between [updateSLAC] (executed) and [training_step += 1] (not yet
    executed), 0 elsewhere. *)
Definition slac_steps_in_flight (p : Trainer.PC) : nat :=
  match p with
  | Trainer.TrIncr => 1
  | _ => 0
  end.

End LoopSpec.

Import LoopSpec.

(** ** Data generation (trainer.py, lines 89-118)

    The data generator is outside the modelled files: the calls made to it
    are recorded, and the number of completed episodes each
    [stepEnvsWait] returns is an input. *)

Module Episodes.

Inductive Call :=
| ResetEnvs (is_expert : bool)
| StepEnvsAsync (expert : bool)
| StepEnvsWait (expert : bool).

(** The method has returned, or it is still in its loop when the supplied
    results are used up; with the episode count and the calls made, newest
    first. *)
Inductive Outcome :=
| Returned (episodes : nat) (calls : list Call)
| Running (episodes : nat) (calls : list Call).

(** [while current < target: stepEnvsAsync; current += stepEnvsWait]. *)
Fixpoint collect (expert : bool) (target current : nat) (waits : list nat)
    (calls : list Call) : Outcome :=
  if (current <? target)%nat then
    match waits with
    | [] => Running current calls
    | complete_eps :: waits' =>
        collect expert target (current + complete_eps) waits'
                (StepEnvsWait expert :: StepEnvsAsync expert :: calls)
    end
  else Returned current calls.

(** [generateExpertData] (lines 98-103); the target is the configuration's
    [num_expert_episodes]. *)
Definition generateExpertData (num_expert_episodes : nat) (waits : list nat)
  : Outcome :=
  collect true num_expert_episodes 0 waits [ResetEnvs true].

(** [generateData] (lines 113-118). *)
Definition generateData (num_eps : nat) (waits : list nat) : Outcome :=
  collect false num_eps 0 waits [ResetEnvs false].

(** The calls of [k] loop iterations after the reset, newest first. *)
Definition calls_of (expert : bool) (k : nat) : list Call :=
  concat (repeat [StepEnvsWait expert; StepEnvsAsync expert] k)
  ++ [ResetEnvs expert].

(** The method returns after [k] iterations with [total] episodes: the
    first [k] results add up to [total], which reaches the target, and no
    shorter prefix does. *)
Definition returns_after (target : nat) (waits : list nat) (k total : nat)
  : Prop :=
  (k <= length waits)%nat /\
  total = list_sum (firstn k waits) /\
  (target <= total)%nat /\
  forall j, (j < k)%nat -> (list_sum (firstn j waits) < target)%nat.

End Episodes.

(** * Properties *)

(** ** Scalar facts about the affine pair *)

Section AffinePair.

Variable r : Range.

Lemma decode1_unscale1 (a : Q) : proper r -> decode1 r (unscale1 r a) == a.
Proof.
  unfold proper, decode1, unscale1. destruct r as [lo hi]; simpl.
  intros H. field. lra.
Qed.

Lemma decode1_within (u : Q) :
  fst r <= snd r -> unit_interval u -> within r (decode1 r u).
Proof.
  unfold unit_interval, within, decode1. destruct r as [lo hi]; simpl.
  intros H [H1 H2]. split; nra.
Qed.



Lemma unscale1_unit (a : Q) :
  proper r -> within r a -> unit_interval (unscale1 r a).
Proof.
  unfold proper, within, unit_interval, unscale1. destruct r as [lo hi]; simpl.
  intros H [H1 H2].
  assert (Hd : 0 < hi - lo) by lra.
  assert (H3 : 0 <= (a - lo) / (hi - lo)) by (apply Qle_shift_div_l; lra).
  assert (H4 : (a - lo) / (hi - lo) <= 1) by (apply Qle_shift_div_r; lra).
  assert (E : 2 * (a - lo) / (hi - lo) == 2 * ((a - lo) / (hi - lo)))
    by (field; lra).
  rewrite E. lra.
Qed.

Lemma clamp_range_within (x : Q) : fst r <= snd r -> within r (clamp_range r x).
Proof.
  unfold within, clamp_range, clamp1. destruct r as [lo hi]; simpl. intros H.
  destruct (Q.max_spec x lo) as [[H1 E]|[H1 E]];
    destruct (Q.min_spec (Qmax x lo) hi) as [[H2 F]|[H2 F]];
    rewrite F; try rewrite E in *; lra.
Qed.


End AffinePair.

(** ** Columns, rows and [stack5] *)

Lemma stack5_maps {A : Type} (g0 g1 g2 g3 g4 : A -> Q) (l : list A) :
  stack5 (map g0 l) (map g1 l) (map g2 l) (map g3 l) (map g4 l)
  = Some (map (fun x => [g0 x; g1 x; g2 x; g3 x; g4 x]) l).
Proof.
  induction l as [|x l IH]; simpl; [reflexivity|]. now rewrite IH.
Qed.

Lemma stack5_inv (a b c d e : Vec) (rows : list Vec) :
  stack5 a b c d e = Some rows ->
  a = map (fun r => nth 0 r 0) rows /\ b = map (fun r => nth 1 r 0) rows /\
  c = map (fun r => nth 2 r 0) rows /\ d = map (fun r => nth 3 r 0) rows /\
  e = map (fun r => nth 4 r 0) rows /\
  Forall (fun r => length r = 5%nat) rows.
Proof.
  revert b c d e rows.
  induction a as [|x a IH]; intros [|y b] [|z c] [|w d] [|v e] rows H;
    simpl in H; try discriminate.
  - injection H as <-. simpl. repeat split; constructor.
  - destruct (stack5 a b c d e) as [rows'|] eqn:E; [|discriminate].
    injection H as <-.
    destruct (IH _ _ _ _ _ E) as (-> & -> & -> & -> & -> & HF).
    simpl. repeat split; try reflexivity. constructor; [reflexivity|assumption].
Qed.

Lemma stack5_length (a b c d e : Vec) (rows : list Vec) :
  stack5 a b c d e = Some rows ->
  length a = length rows /\ length b = length rows /\ length c = length rows /\
  length d = length rows /\ length e = length rows.
Proof.
  intros H. destruct (stack5_inv _ _ _ _ _ _ H) as (-> & -> & -> & -> & -> & _).
  now rewrite !length_map.
Qed.

Lemma stack5_total (a b c d e : Vec) :
  length b = length a -> length c = length a -> length d = length a ->
  length e = length a ->
  exists rows, stack5 a b c d e = Some rows.
Proof.
  revert b c d e.
  induction a as [|x a IH]; intros [|y b] [|z c] [|w d] [|v e];
    simpl; intros Hb Hc Hd He; try discriminate.
  - now eexists.
  - destruct (IH b c d e) as [rows ->]; try congruence. now eexists.
Qed.

Lemma column_map (i : nat) (rows : list Vec) :
  Forall (fun r => (i < length r)%nat) rows ->
  column i rows = Some (map (fun r => nth i r 0) rows).
Proof.
  induction 1 as [|r rows Hr _ IH]; simpl; [reflexivity|].
  rewrite IH. destruct (nth_error r i) as [x|] eqn:E.
  - now rewrite (nth_error_nth _ _ 0 E).
  - apply nth_error_None in E. lia.
Qed.

Lemma Forall2_map_self {A : Type} (R : A -> A -> Prop) (f : A -> A) (l : list A) :
  Forall (fun x => R (f x) x) l -> Forall2 R (map f l) l.
Proof. induction 1; simpl; constructor; assumption. Qed.


Lemma row5_map5 (P0 P1 P2 P3 P4 : Q -> Prop) f0 f1 f2 f3 f4 (r : Vec) :
  P0 (f0 (nth 0 r 0)) -> P1 (f1 (nth 1 r 0)) -> P2 (f2 (nth 2 r 0)) ->
  P3 (f3 (nth 3 r 0)) -> P4 (f4 (nth 4 r 0)) ->
  row5 P0 P1 P2 P3 P4 (map5 f0 f1 f2 f3 f4 r).
Proof. simpl; tauto. Qed.

(** [decodeActions] on the columns of a batch of rows. *)
Lemma decodeActions_rows (self : Agent.t) (a b c d e : Vec) (rows : list Vec) :
  stack5 a b c d e = Some rows ->
  Agent.decodeActions self a b c d e = Some (rows, map (decode_row self) rows).
Proof.
  intros H. unfold Agent.decodeActions. rewrite H.
  destruct (stack5_inv _ _ _ _ _ _ H) as (-> & -> & -> & -> & -> & _).
  unfold pointwise. rewrite !map_map, stack5_maps. reflexivity.
Qed.

(** The ranges [Agent.__init__] builds are proper when the two step sizes of
    the configuration are positive. *)
Lemma init_proper_ranges (cfg : Config) (l a c : Net) (self : Agent.t) :
  0 < dpos cfg -> 0 < drot cfg -> Agent.init cfg l a c = Some self ->
  proper_ranges self.
Proof.
  intros Hp Hr H. unfold Agent.init in H.
  destruct (Agent.zero_histories cfg) as [[[vh fh] ah]|]; simpl in H;
    [|discriminate].
  injection H as <-. unfold proper_ranges, proper; simpl.
  repeat split; lra.
Qed.

Lemma init_ordered_ranges (cfg : Config) (l a c : Net) (self : Agent.t) :
  0 <= dpos cfg -> 0 <= drot cfg -> Agent.init cfg l a c = Some self ->
  ordered_ranges self.
Proof.
  intros Hp Hr H. unfold Agent.init in H.
  destruct (Agent.zero_histories cfg) as [[[vh fh] ah]|]; simpl in H;
    [|discriminate].
  injection H as <-. unfold ordered_ranges; simpl.
  repeat constructor; simpl; lra.
Qed.

(** ** C1: normalising and decoding is the identity *)

(** C1.  For an agent whose five ranges satisfy [min < max] and a batch of
    physical actions with every component inside its range, normalising each
    column with [getUnscaledActions] and decoding the result with
    [decodeActions] succeeds and returns, as scaled actions, the batch
    itself (equality of rationals, component by component). *)
Theorem decode_unscaled_roundtrip
    (self : Agent.t) (p dx dy dz dtheta : Vec) (rows : list Vec) :
  proper_ranges self ->
  stack5 p dx dy dz dtheta = Some rows ->
  Forall (in_ranges self) rows ->
  exists unscaled actions,
    Agent.decodeActions self
      (Agent.getUnscaledActions self p (Agent.p_range self))
      (Agent.getUnscaledActions self dx (Agent.dx_range self))
      (Agent.getUnscaledActions self dy (Agent.dy_range self))
      (Agent.getUnscaledActions self dz (Agent.dz_range self))
      (Agent.getUnscaledActions self dtheta (Agent.dtheta_range self))
    = Some (unscaled, actions)
    /\ rows_eq actions rows.
Proof.
  intros (Hp & Hx & Hy & Hz & Ht) Hs Hin.
  destruct (stack5_inv _ _ _ _ _ _ Hs) as (-> & -> & -> & -> & -> & _).
  unfold Agent.getUnscaledActions, pointwise. rewrite !map_map.
  erewrite decodeActions_rows by apply stack5_maps.
  do 2 eexists; split; [reflexivity|].
  rewrite map_map. apply Forall2_map_self.
  eapply Forall_impl; [|exact Hin].
  intros r Hr.
  destruct r as [|x0 [|x1 [|x2 [|x3 [|x4 [|x5 r]]]]]]; simpl in Hr; try tauto.
  unfold decode_row, map5; simpl.
  repeat constructor; apply decode1_unscale1; assumption.
Qed.

Lemma decode_unscaled_roundtrip_witness :
  exists unscaled actions,
    Agent.decodeActions Stub.agent
      (Agent.getUnscaledActions Stub.agent [1 # 2] (0, 1))
      (Agent.getUnscaledActions Stub.agent [1 # 40] (- (1 # 20), 1 # 20))
      (Agent.getUnscaledActions Stub.agent [0] (- (1 # 20), 1 # 20))
      (Agent.getUnscaledActions Stub.agent [- (1 # 20)] (- (1 # 20), 1 # 20))
      (Agent.getUnscaledActions Stub.agent [1 # 4] (- (1 # 4), 1 # 4))
    = Some (unscaled, actions)
    /\ rows_eq actions [[1 # 2; 1 # 40; 0; - (1 # 20); 1 # 4]].
Proof.
  apply (decode_unscaled_roundtrip Stub.agent
           [1 # 2] [1 # 40] [0] [- (1 # 20)] [1 # 4]).
  - unfold proper_ranges, proper; simpl. repeat split; reflexivity.
  - reflexivity.
  - constructor; [|constructor].
    unfold in_ranges, within; simpl. repeat split; discriminate.
Defined.

(** ** C2: decoded actions stay inside the ranges *)



(** ** C3: planner actions are clamped before they are normalised *)

(** C3.  For an agent whose ranges satisfy [min < max] and any batch of
    planner rows with five components, whatever their values,
    [convertPlanAction] returns (no error): the unscaled rows are the
    normalisation of the rows clamped into the ranges, every clamped
    component lies in its range, every unscaled component lies in [-1, 1],
    and the scaled rows are the decoding of the unscaled rows. *)
Theorem convertPlanAction_clamps (self : Agent.t) (plan_action : list Vec) :
  proper_ranges self ->
  Forall (fun r => (5 <= length r)%nat) plan_action ->
  exists unscaled actions,
    Agent.convertPlanAction self plan_action = Some (unscaled, actions)
    /\ unscaled = map (fun r => unscale_row self (clamp_row self r)) plan_action
    /\ Forall (in_ranges self) (map (clamp_row self) plan_action)
    /\ Forall in_unit unscaled
    /\ actions = map (decode_row self) unscaled.
Proof.
  intros (Hp & Hx & Hy & Hz & Ht) Hlen.
  assert (Hcol : forall i, (i < 5)%nat ->
            column i plan_action = Some (map (fun r => nth i r 0) plan_action)).
  { intros i Hi. apply column_map. eapply Forall_impl; [|exact Hlen].
    simpl; intros; lia. }
  unfold Agent.convertPlanAction.
  rewrite !Hcol by lia. simpl bind.
  unfold Agent.getUnscaledActions, clamp, pointwise. rewrite !map_map.
  erewrite decodeActions_rows by apply stack5_maps.
  do 2 eexists; split; [reflexivity|].
  split; [reflexivity|].
  assert (Hclamp : forall r, in_ranges self (clamp_row self r)).
  { intros r. unfold in_ranges, clamp_row. apply row5_map5;
      apply clamp_range_within; auto using Qlt_le_weak. }
  split; [apply Forall_map, Forall_forall; intros; apply Hclamp|].
  split; [|reflexivity].
  apply Forall_map, Forall_forall. intros r _.
  change (in_unit (unscale_row self (clamp_row self r))).
  unfold in_unit, unscale_row. apply row5_map5;
    apply unscale1_unit; try assumption;
    apply clamp_range_within; auto using Qlt_le_weak.
Qed.

(** A planner row with every component outside its range. *)
Lemma convertPlanAction_clamps_witness :
  exists unscaled actions,
    Agent.convertPlanAction Stub.agent [[2; 1; - (1); 7; - (3)]]
    = Some (unscaled, actions)
    /\ Forall in_unit unscaled.
Proof.
  destruct (convertPlanAction_clamps Stub.agent [[2; 1; - (1); 7; - (3)]])
    as (unscaled & actions & E & _ & _ & H & _).
  - unfold proper_ranges, proper; simpl. repeat split; reflexivity.
  - constructor; [simpl; lia | constructor].
  - exists unscaled, actions. split; assumption.
Defined.

(** ** The error monad *)

Lemma bind_Some {A B : Type} (m : option A) (k : A -> option B) (b : B) :
  bind m k = Some b -> exists a, m = Some a /\ k a = Some b.
Proof. destruct m as [a|]; simpl; [eauto | discriminate]. Qed.

Ltac bind_inv H :=
  let a := fresh "a" in
  let E := fresh "E" in
  apply bind_Some in H; destruct H as (a & E & H).

Tactic Notation "bind_inv_as" hyp(H) ident(a) ident(E) :=
  apply bind_Some in H; destruct H as (a & E & H).

(** ** Rolling windows *)

Section Windows.

Context {A : Type}.

Lemma set_last_roll_left (w w' : list A) (x : A) :
  set_last (roll_left w) x = Some w' -> w <> [] /\ w' = tl w ++ [x].
Proof.
  destruct w as [|a w]; simpl; [discriminate|].
  unfold set_last. destruct (w ++ [a]) as [|b l] eqn:E.
  - now destruct w.
  - rewrite <- E, removelast_last. intros H; injection H as <-.
    split; [discriminate | reflexivity].
Qed.

Lemma shifted_tl (w : list A) (x : A) : w <> [] -> shifted w (tl w ++ [x]) x.
Proof.
  destruct w as [|a w]; [congruence|]. intros _. simpl.
  repeat split.
  - rewrite length_app; simpl; lia.
  - unfold last_error. now rewrite rev_app_distr.
  - intros i Hi. simpl in Hi |- *. apply nth_error_app1. lia.
Qed.

Lemma shifted_first (w w' : list A) (x : A) :
  shifted w w' x -> (2 <= length w)%nat -> nth_error w' 0 = nth_error w 1.
Proof. intros (_ & _ & H) Hl. apply H. lia. Qed.

Lemma set_last_all_roll (h h' : list (list A)) (v : list A) :
  set_last_all (roll h) v = Some h' ->
  map (@length A) h' = map (@length A) h /\
  forall e w, nth_error h e = Some w ->
    exists w' x, nth_error h' e = Some w' /\ nth_error v e = Some x /\
                 shifted w w' x.
Proof.
  revert h' v. induction h as [|w0 h IH]; intros h' v H; simpl in H.
  - injection H as <-. split; [reflexivity|]. intros [|e] w; discriminate.
  - destruct v as [|x v]; [discriminate|].
    bind_inv H. bind_inv H. injection H as <-.
    apply set_last_roll_left in E as [Hne ->].
    destruct (IH _ _ E0) as [Hlen Hnth].
    split.
    + simpl. rewrite Hlen. f_equal.
      destruct (shifted_tl w0 x Hne) as (Hl & _). exact Hl.
    + intros [|e] w Hw; simpl in Hw.
      * injection Hw as <-. exists (tl w0 ++ [x]), x.
        repeat split; try reflexivity; now apply shifted_tl.
      * simpl. now apply Hnth.
Qed.

Lemma assign_last_roll (h h' : list (list A)) (v : list A) :
  assign_last (roll h) v = Some h' ->
  exists v1, expand (length h) v = Some v1 /\
    map (@length A) h' = map (@length A) h /\
    forall e w, nth_error h e = Some w ->
      exists w' x, nth_error h' e = Some w' /\ nth_error v1 e = Some x /\
                   shifted w w' x.
Proof.
  unfold assign_last, roll at 1. rewrite length_map. intros H. bind_inv H.
  exists a. split; [assumption|]. now apply set_last_all_roll.
Qed.

Lemma windows_map_length (h h' : list (list A)) (envs k : nat) :
  map (@length A) h' = map (@length A) h ->
  windows envs k h -> windows envs k h'.
Proof.
  intros E [Hn Hk]. split.
  - rewrite <- Hn, <- (length_map (@length A) h'), E. apply length_map.
  - apply (Forall_map (@length A) (fun n => n = k)). rewrite E.
    now apply Forall_map.
Qed.

Lemma windows_repeat (envs k : nat) (x : A) :
  windows envs k (repeat (repeat x k) envs).
Proof.
  split; [apply repeat_length|].
  apply Forall_forall. intros w Hw. apply repeat_spec in Hw as ->.
  apply repeat_length.
Qed.

Lemma Forall_repeat (P : A -> Prop) (x : A) (n : nat) :
  P x -> Forall P (repeat x n).
Proof.
  intros H. apply Forall_forall. intros y Hy. now apply repeat_spec in Hy as ->.
Qed.

End Windows.

(** [getAction], unfolded into its successful steps. *)
Lemma getAction_Some (X : External) (self self' : Agent.t) (eps : Noise X)
    (vision : list Frame) (force : list (list Vec)) (proprio : list Vec)
    (evaluate : bool) (out : list Vec * list Vec * Q) :
  Agent.getAction X self eps vision force proprio evaluate = Some (self', out) ->
  exists force1 vh fh action ah,
    Agent.preprocess_force X self
      (length (Agent.preprocess_vision X self vision)) force = Some force1 /\
    assign_last (roll (Agent.vision_history self))
      (Agent.preprocess_vision X self vision) = Some vh /\
    assign_last (roll (Agent.force_history self)) force1 = Some fh /\
    assign_last (roll (Agent.action_history self)) action = Some ah /\
    self' = Agent.with_histories self vh fh ah.
Proof.
  unfold Agent.getAction. intros H.
  do 7 bind_inv H.
  destruct evaluate;
    destruct (actor_sample X (Agent.actor self) eps _) as [action lp];
    do 2 bind_inv H;
    match goal with p : (list Vec * list Vec)%type |- _ => destruct p end;
    injection H as <- _;
    do 5 eexists; repeat split; eassumption.
Qed.

Lemma assign_last_roll_shifted {A : Type} (h h' : list (list A)) (v : list A) :
  assign_last (roll h) v = Some h' ->
  exists v1, expand (length h) v = Some v1 /\ buffer_shifted h h' v1.
Proof.
  intros H. destruct (assign_last_roll _ _ _ H) as (v1 & Hv & Hlen & Hnth).
  exists v1. split; [assumption|]. split.
  - rewrite <- (length_map (@length A) h'), Hlen. apply length_map.
  - intros e w Hw. destruct (Hnth e w Hw) as (w' & x & H1 & H2 & H3).
    exists w', x. split; [assumption|]. split; [assumption|].
    split; [assumption|]. now apply shifted_first with x.
Qed.

(** ** C4: one [getAction] call shifts the vision and force histories *)

(** C4.  From any agent state, when a [getAction] call returns, the vision
    and the force history are the old ones shifted by one slot: for every
    environment the window keeps its size, its last slot holds the
    preprocessed observation (the centre-cropped vision; the latest force
    time step normalised by [max_force]), slot [i] holds what slot [i + 1]
    held, and with two slots or more the first slot holds what the second
    held. *)
Theorem getAction_shifts_histories (X : External) (self self' : Agent.t)
    (eps : Noise X) (vision : list Frame) (force : list (list Vec))
    (proprio : list Vec) (evaluate : bool) (out : list Vec * list Vec * Q) :
  Agent.getAction X self eps vision force proprio evaluate = Some (self', out) ->
  let cfg := Agent.config self in
  let cropped := centerCrop X vision (vision_size cfg) in
  exists (vnew : list Frame) (latest normalized fnew : list Vec),
    expand (length (Agent.vision_history self)) cropped = Some vnew /\
    last_slot force = Some latest /\
    view2 (length cropped) (force_dim cfg)
          (normalizeForce X latest (max_force cfg)) = Some normalized /\
    expand (length (Agent.force_history self)) normalized = Some fnew /\
    buffer_shifted (Agent.vision_history self) (Agent.vision_history self') vnew /\
    buffer_shifted (Agent.force_history self) (Agent.force_history self') fnew.
Proof.
  intros H cfg cropped.
  destruct (getAction_Some _ _ _ _ _ _ _ _ _ H)
    as (force1 & vh & fh & action & ah & Hf & Hvh & Hfh & _ & ->).
  unfold Agent.preprocess_force in Hf. bind_inv Hf.
  destruct (assign_last_roll_shifted _ _ _ Hvh) as (vnew & Hv1 & Hv2).
  destruct (assign_last_roll_shifted _ _ _ Hfh) as (fnew & Hf1 & Hf2).
  exists vnew, a, force1, fnew. simpl.
  repeat split; try assumption; try apply Hv2; try apply Hf2.
Qed.

(** A call on one environment with windows of two slots. *)
Lemma getAction_shifts_histories_witness :
  exists self' out,
    Agent.getAction Stub.external Stub.agent tt
      [ [[[7]]] ] [[ [3; 3]; [5; 5] ]] [[1]] false = Some (self', out) /\
    buffer_shifted (Agent.vision_history Stub.agent)
                   (Agent.vision_history self') [ [[[7]]] ].
Proof.
  eexists. eexists. split; [vm_compute; reflexivity|].
  destruct (getAction_shifts_histories Stub.external Stub.agent _ tt
              [ [[[7]]] ] [[ [3; 3]; [5; 5] ]] [[1]] false _ eq_refl)
    as (vnew & latest & normalized & fnew & Hv & _ & _ & _ & Hs & _).
  vm_compute in Hv. injection Hv as <-. exact Hs.
Defined.

(** ** C5: the sizes of the three history windows *)

Lemma resetEpisode_config (self self' : Agent.t) :
  Agent.resetEpisode self = Some self' -> Agent.config self' = Agent.config self.
Proof.
  unfold Agent.resetEpisode. intros H. bind_inv H.
  destruct a as [[vh fh] ah]. now injection H as <-.
Qed.

(** C5, as claimed, fails: after [resetEpisode] with [seq_len = 2] the
    action history has one slot per environment, not two. *)
Lemma action_history_one_slot_short :
  exists self',
    Agent.resetEpisode Stub.agent = Some self' /\
    seq_len (Agent.config self') = 2%nat /\
    Agent.action_history self' = [[ [0; 0; 0; 0; 0] ]] /\
    ~ uniform_history_shape self'.
Proof.
  eexists. split; [vm_compute; reflexivity|].
  split; [reflexivity|]. split; [reflexivity|].
  intros (_ & _ & _ & H). simpl in H.
  apply Forall_inv in H. discriminate H.
Qed.

(** C5, amended.  With [seq_len >= 1], [resetEpisode] returns a state whose
    vision and force windows have [seq_len] slots and whose action windows
    have [seq_len - 1] slots, one window per environment, every entry zero;
    and a [getAction] call that returns keeps these window sizes. *)
Theorem history_shape_invariant (X : External) (self : Agent.t) :
  (1 <= seq_len (Agent.config self))%nat ->
  (exists self0,
      Agent.resetEpisode self = Some self0 /\
      history_shape self0 /\ histories_zero self0) /\
  (forall eps vision force proprio evaluate self' out,
      history_shape self ->
      Agent.getAction X self eps vision force proprio evaluate
        = Some (self', out) ->
      history_shape self').
Proof.
  intros Hseq. split.
  - unfold Agent.resetEpisode, Agent.zero_histories.
    destruct (seq_len (Agent.config self)) as [|k] eqn:Ek; [lia|].
    eexists. split; [reflexivity|]. split.
    + unfold history_shape; cbn -[repeat Nat.sub zeros3 zeros1]. rewrite Ek.
      replace (S k - 1)%nat with k by lia.
      split; [|split]; apply windows_repeat.
    + unfold histories_zero; cbn -[repeat Nat.sub].
      split; [|split]; repeat apply Forall_repeat; reflexivity.
  - intros eps vision force proprio evaluate self' out Hshape H.
    destruct (getAction_Some _ _ _ _ _ _ _ _ _ H)
      as (force1 & vh & fh & action & ah & _ & Hvh & Hfh & Hah & ->).
    apply assign_last_roll in Hvh as (_ & _ & Ev & _).
    apply assign_last_roll in Hfh as (_ & _ & Ef & _).
    apply assign_last_roll in Hah as (_ & _ & Ea & _).
    destruct Hshape as (Hv & Hf & Ha).
    unfold history_shape; simpl.
    repeat split; eapply windows_map_length; eassumption.
Qed.

Lemma history_shape_invariant_witness :
  (exists self0,
      Agent.resetEpisode Stub.agent = Some self0 /\
      history_shape self0 /\ histories_zero self0) /\
  exists self' out,
    Agent.getAction Stub.external Stub.agent tt
      [ [[[7]]] ] [[ [3; 3]; [5; 5] ]] [[1]] false = Some (self', out) /\
    history_shape self'.
Proof.
  assert (Hseq : (1 <= seq_len (Agent.config Stub.agent))%nat)
    by (vm_compute; lia).
  destruct (history_shape_invariant Stub.external Stub.agent Hseq) as [H0 H1].
  split; [exact H0|].
  eexists. eexists. split; [vm_compute; reflexivity|].
  eapply (H1 tt [ [[[7]]] ] [[ [3; 3]; [5; 5] ]] [[1]] false).
  - unfold history_shape, windows; simpl. repeat split; repeat constructor.
  - vm_compute; reflexivity.
Defined.

(** ** State dicts *)

Section StateDicts.

Lemma has_key_In (sd : StateDict) (k : string) :
  has_key sd k = true <-> In k (keys sd).
Proof.
  unfold has_key. rewrite existsb_exists. split.
  - intros (k' & Hin & E). apply String.eqb_eq in E. now subst.
  - intros H. exists k. split; [assumption | apply String.eqb_refl].
Qed.

Lemma lookup_None (sd : StateDict) (k : string) :
  lookup k sd = None <-> ~ In k (keys sd).
Proof.
  induction sd as [|[k' v] sd IH]; simpl; [tauto|].
  destruct (String.eqb_spec k k') as [->|Hne].
  - split; [discriminate | tauto].
  - rewrite IH. split; [intros H [E|H']; [congruence | tauto] | tauto].
Qed.

Lemma lookup_In (sd : StateDict) (k : string) :
  In k (keys sd) -> exists v, lookup k sd = Some v.
Proof.
  intros H. destruct (lookup k sd) as [v|] eqn:E; [eauto|].
  now apply lookup_None in E.
Qed.

Lemma lookup_NoDup (sd : StateDict) (k : string) (v : Vec) :
  NoDup (keys sd) -> In (k, v) sd -> lookup k sd = Some v.
Proof.
  induction sd as [|[k' v'] sd IH]; simpl; [tauto|].
  intros Hnd [E|Hin].
  - injection E as -> ->. now rewrite String.eqb_refl.
  - inversion Hnd as [|? ? Hnotin Hnd']; subst.
    destruct (String.eqb_spec k k') as [->|Hne]; [|now apply IH].
    exfalso. apply Hnotin. change k' with (fst (k', v)).
    now apply in_map.
Qed.

Lemma lookup_tabulate (g : string -> Vec) (ks : list string) (k : string) :
  lookup k (map (fun k' => (k', g k')) ks)
  = if existsb (String.eqb k) ks then Some (g k) else None.
Proof.
  induction ks as [|k' ks IH]; simpl; [reflexivity|].
  destruct (String.eqb_spec k k') as [->|Hne]; simpl; [reflexivity | exact IH].
Qed.

Lemma load_params_tabulate (m : Net) (sd : StateDict) :
  (forall k t, In (k, t) m ->
     exists v, lookup k sd = Some v /\ length v = length t) ->
  load_params m sd = Some (map (fun k => (k, from_dict sd k)) (keys m)).
Proof.
  induction m as [|[k t] m IH]; simpl; intros H; [reflexivity|].
  destruct (H k t (or_introl eq_refl)) as (v & Hv & Hl).
  rewrite Hv; simpl. rewrite Hl, Nat.eqb_refl.
  rewrite IH by (intros; apply H; now right). simpl.
  unfold from_dict at 2. now rewrite Hv.
Qed.

(** Loading a state dict the module accepts succeeds; the module then holds
    the tensors of the dict under the module's names. *)
Lemma load_state_dict_loadable (m : Net) (sd : StateDict) :
  loadable m sd ->
  exists m',
    load_state_dict m sd = Some m' /\
    keys m' = keys m /\
    same_dict (state_dict m') sd /\
    (keys sd = keys m -> NoDup (keys sd) -> state_dict m' = sd).
Proof.
  intros [Hkeys Hsize].
  exists (map (fun k => (k, from_dict sd k)) (keys m)).
  split; [|split; [|split]].
  - unfold load_state_dict.
    assert (E1 : forallb (has_key sd) (keys m) = true).
    { apply forallb_forall. intros k Hk. now apply has_key_In, Hkeys. }
    assert (E2 : forallb (has_key m) (keys sd) = true).
    { apply forallb_forall. intros k Hk. now apply has_key_In, Hkeys. }
    rewrite E1, E2; simpl. apply load_params_tabulate.
    intros k t Hin.
    assert (Hk : In k (keys sd)).
    { apply Hkeys. change k with (fst (k, t)). now apply in_map. }
    destruct (lookup_In _ _ Hk) as [v Hv]. exists v. split; [assumption|].
    now apply Hsize with k.
  - unfold keys. rewrite map_map; simpl. apply map_id.
  - intros k. unfold state_dict. rewrite lookup_tabulate.
    fold (has_key m k).
    destruct (has_key m k) eqn:E.
    + apply has_key_In, Hkeys, lookup_In in E as [v Hv].
      unfold from_dict. now rewrite Hv.
    + symmetry. apply lookup_None. intros Hin.
      apply Hkeys, has_key_In in Hin. congruence.
  - intros Ek Hnd. unfold state_dict. rewrite <- Ek. unfold keys.
    rewrite map_map. rewrite <- (map_id sd) at 2.
    apply map_ext_in. intros [k v] Hin; simpl. f_equal.
    unfold from_dict. now rewrite (lookup_NoDup _ _ _ Hnd Hin).
Qed.

End StateDicts.

(** ** C10: [setWeights] and [getWeights] *)

(** C10.  [setWeights(None)] returns without error and leaves the agent as
    it is.  For a triple of state dicts the three models accept (the names
    and sizes of their parameters), [setWeights] returns without error,
    loads the first dict into the latent model, the second into the actor,
    the third into the critic, and [getWeights] then returns that triple in
    that order: the same tensor under every name, and the very same dicts
    when their names come in the order of the models' parameters. *)
Theorem setWeights_getWeights (self : Agent.t) :
  Agent.setWeights self None = Some self /\
  forall w0 w1 w2 : StateDict,
    loadable (Agent.latent self) w0 ->
    loadable (Agent.actor self) w1 ->
    loadable (Agent.critic self) w2 ->
    exists self',
      Agent.setWeights self (Some (w0, w1, w2)) = Some self' /\
      load_state_dict (Agent.latent self) w0 = Some (Agent.latent self') /\
      load_state_dict (Agent.actor self) w1 = Some (Agent.actor self') /\
      load_state_dict (Agent.critic self) w2 = Some (Agent.critic self') /\
      same_dict (fst (fst (Agent.getWeights self'))) w0 /\
      same_dict (snd (fst (Agent.getWeights self'))) w1 /\
      same_dict (snd (Agent.getWeights self')) w2 /\
      (keys w0 = keys (Agent.latent self) -> NoDup (keys w0) ->
       keys w1 = keys (Agent.actor self) -> NoDup (keys w1) ->
       keys w2 = keys (Agent.critic self) -> NoDup (keys w2) ->
       Agent.getWeights self' = (w0, w1, w2)).
Proof.
  split; [reflexivity|].
  intros w0 w1 w2 H0 H1 H2.
  destruct (load_state_dict_loadable _ _ H0) as (l & El & _ & Sl & Ql).
  destruct (load_state_dict_loadable _ _ H1) as (a & Ea & _ & Sa & Qa).
  destruct (load_state_dict_loadable _ _ H2) as (c & Ec & _ & Sc & Qc).
  exists (Agent.with_nets self l a c).
  unfold Agent.setWeights. rewrite El, Ea, Ec. simpl.
  repeat split; try assumption.
  intros K0 N0 K1 N1 K2 N2. unfold Agent.getWeights; simpl.
  now rewrite (Ql K0 N0), (Qa K1 N1), (Qc K2 N2).
Qed.

Lemma setWeights_getWeights_witness :
  exists self',
    Agent.setWeights Stub.agent (Some (Stub.net 7, Stub.net 8, Stub.net 9))
      = Some self' /\
    Agent.getWeights self' = (Stub.net 7, Stub.net 8, Stub.net 9).
Proof.
  assert (L : forall x y, loadable (Stub.net x) (Stub.net y)).
  { intros x y. split.
    - intros k. reflexivity.
    - intros k t v [E|[E|[]]] Hv; injection E as <- <-;
        vm_compute in Hv; injection Hv as <-; reflexivity. }
  assert (N : forall y, NoDup (keys (Stub.net y))).
  { intros y. repeat constructor; simpl; intuition discriminate. }
  destruct (proj2 (setWeights_getWeights Stub.agent)
              (Stub.net 7) (Stub.net 8) (Stub.net 9) (L _ _) (L _ _) (L _ _))
    as (self' & E & _ & _ & _ & _ & _ & _ & Q).
  exists self'. split; [exact E|].
  apply Q; solve [reflexivity | apply N].
Defined.

(** ** C6: the soft update of the target critic *)

Lemma map2_length {A B C : Type} (f : A -> B -> C) (a : list A) (b : list B) :
  length b = length a -> length (map2 f a b) = length a.
Proof.
  revert b. induction a as [|x a IH]; intros [|y b]; simpl; intros H;
    try reflexivity; try discriminate. now rewrite IH by congruence.
Qed.

Lemma map2_map {A B A' B' C : Type} (f : A' -> B' -> C) (g : A -> A')
    (h : B -> B') (a : list A) (b : list B) :
  map2 f (map g a) (map h b) = map2 (fun x y => f (g x) (h y)) a b.
Proof.
  revert b. induction a as [|x a IH]; intros [|y b]; simpl; try reflexivity.
  now rewrite IH.
Qed.

Lemma map2_flip {A B C : Type} (f : A -> B -> C) (a : list A) (b : list B) :
  map2 f a b = map2 (fun y x => f x y) b a.
Proof.
  revert b. induction a as [|x a IH]; intros [|y b]; simpl; try reflexivity.
  now rewrite IH.
Qed.

Lemma ew2_same_length (f : Q -> Q -> Q) (a b : Vec) :
  length a = length b -> ew2 f a b = Some (map2 f a b).
Proof. intros H. unfold ew2. now rewrite H, Nat.eqb_refl. Qed.

Lemma copy_same_length (dst src : Vec) :
  length src = length dst -> copy_ dst src = Some src.
Proof. intros H. unfold copy_. now rewrite H, Nat.eqb_refl. Qed.

(** One parameter pair of the loop. *)
Lemma soft_update_pair (tau : Q) (t_param l_param : Vec) :
  length t_param = length l_param ->
  (mixed <- ew2 Qplus (pointwise (Qmult tau) l_param)
                      (pointwise (Qmult (1 - tau)) t_param) ;;
   copy_ t_param mixed)
  = Some (map2 (polyak tau) t_param l_param).
Proof.
  intros H. unfold pointwise.
  rewrite ew2_same_length by (rewrite !length_map; congruence). simpl.
  rewrite map2_map, map2_flip.
  apply copy_same_length. apply map2_length. congruence.
Qed.

Lemma soft_update_same_shape (tau : Q) (target live : Net) :
  same_shape target live ->
  exists net,
    Trainer.soft_update tau target live = Some net /\
    keys net = keys target /\
    parameters net
    = map2 (map2 (polyak tau)) (parameters target) (parameters live).
Proof.
  induction 1 as [|[k t] [k' l] target live [_ Hl] _ IH]; simpl.
  - now exists [].
  - simpl in Hl. destruct IH as (net & E & Hk & Hp).
    pose proof (soft_update_pair tau t l Hl) as Hpair.
    apply bind_Some in Hpair as (mixed & Hm & Hc).
    rewrite Hm; simpl. rewrite Hc; simpl. rewrite E; simpl.
    eexists. split; [reflexivity|]. simpl. now rewrite Hk, Hp.
Qed.

Lemma polyak_one (tau t l : Q) : tau == 1 -> polyak tau t l == l.
Proof. unfold polyak. intros ->. ring. Qed.

Lemma polyak_zero (tau t l : Q) : tau == 0 -> polyak tau t l == t.
Proof. unfold polyak. intros ->. ring. Qed.

Lemma map2_rows_eq_r (f : Q -> Q -> Q) (ts ls : list Vec) :
  (forall t l, f t l == l) ->
  Forall2 (fun t l => length t = length l) ts ls ->
  rows_eq (map2 (map2 f) ts ls) ls.
Proof.
  intros Hf. induction 1 as [|t l ts ls Hl _ IH]; simpl; constructor;
    [|exact IH].
  clear IH. revert l Hl. induction t as [|x t IHt]; intros [|y l] Hl;
    simpl in *; try discriminate; constructor; [apply Hf|].
  apply IHt. congruence.
Qed.

Lemma map2_rows_eq_l (f : Q -> Q -> Q) (ts ls : list Vec) :
  (forall t l, f t l == t) ->
  Forall2 (fun t l => length t = length l) ts ls ->
  rows_eq (map2 (map2 f) ts ls) ts.
Proof.
  intros Hf. induction 1 as [|t l ts ls Hl _ IH]; simpl; constructor;
    [|exact IH].
  clear IH. revert l Hl. induction t as [|x t IHt]; intros [|y l] Hl;
    simpl in *; try discriminate; constructor; [apply Hf|].
  apply IHt. congruence.
Qed.

Lemma same_shape_parameters (a b : Net) :
  same_shape a b ->
  Forall2 (fun t l => length t = length l) (parameters a) (parameters b).
Proof.
  induction 1 as [|x y a b [_ H] _ IH]; simpl; constructor; assumption.
Qed.

(** C6.  When the critic and the target critic have the same parameters
    (names and sizes, as the two [TwinnedQNetwork] calls of the constructor
    give them), one [softTargetUpdate] returns without error, leaves the
    critic as it is and sets every target parameter, entry by entry, to
    [tau * live + (1 - tau) * target].  With [tau = 1] the target parameters
    equal the live parameters; with [tau = 0] they equal the old target
    parameters. *)
Theorem softTargetUpdate_polyak (X : External) (self : Trainer.t X) :
  same_shape (Trainer.critic_target X self) (Trainer.critic X self) ->
  let tau := tau (Trainer.config X self) in
  exists self',
    Trainer.softTargetUpdate X self = Some self' /\
    Trainer.critic X self' = Trainer.critic X self /\
    keys (Trainer.critic_target X self') = keys (Trainer.critic_target X self) /\
    parameters (Trainer.critic_target X self')
    = map2 (map2 (fun t l => tau * l + (1 - tau) * t))
           (parameters (Trainer.critic_target X self))
           (parameters (Trainer.critic X self)) /\
    (tau == 1 ->
     rows_eq (parameters (Trainer.critic_target X self'))
             (parameters (Trainer.critic X self))) /\
    (tau == 0 ->
     rows_eq (parameters (Trainer.critic_target X self'))
             (parameters (Trainer.critic_target X self))).
Proof.
  intros Hs tau0.
  destruct (soft_update_same_shape tau0 _ _ Hs) as (net & E & Hk & Hp).
  exists (Trainer.set_critic_target X self net).
  unfold Trainer.softTargetUpdate. fold tau0. rewrite E. simpl.
  split; [reflexivity|]. split; [reflexivity|]. split; [exact Hk|].
  split; [exact Hp|].
  apply same_shape_parameters in Hs.
  split; intros Ht; rewrite Hp.
  - apply map2_rows_eq_r; [intros; now apply polyak_one | assumption].
  - apply map2_rows_eq_l; [intros; now apply polyak_zero | assumption].
Qed.

Lemma softTargetUpdate_polyak_witness :
  exists self',
    Trainer.softTargetUpdate Stub.external Stub.trainer = Some self' /\
    parameters (Trainer.critic_target Stub.external self')
    = [[(1 # 100) * 3 + (1 - (1 # 100)) * 4; (1 # 100) * 3 + (1 - (1 # 100)) * 4];
       [(1 # 100) * 3 + (1 - (1 # 100)) * 4]].
Proof.
  assert (Hs : same_shape (Trainer.critic_target Stub.external Stub.trainer)
                          (Trainer.critic Stub.external Stub.trainer)).
  { repeat constructor. }
  destruct (softTargetUpdate_polyak Stub.external Stub.trainer Hs)
    as (self' & E & _ & _ & Hp & _).
  exists self'. split; [exact E | exact Hp].
Defined.

(** ** C7: the TD target of the critic update *)

Lemma nth_map2 {A B C : Type} (f : A -> B -> C) (a : list A) (b : list B)
    (i : nat) (da : A) (db : B) (dc : C) :
  (i < length a)%nat -> length b = length a ->
  nth i (map2 f a b) dc = f (nth i a da) (nth i b db).
Proof.
  revert b i. induction a as [|x a IH]; intros [|y b] i Hi Hl; simpl in *;
    try lia; try discriminate.
  destruct i as [|i]; [reflexivity|]. apply IH; lia.
Qed.

Lemma nth_pointwise (f : Q -> Q) (t : Vec) (i : nat) :
  (i < length t)%nat -> nth i (pointwise f t) 0 = f (nth i t 0).
Proof.
  intros Hi. unfold pointwise.
  rewrite (nth_indep _ 0 (f 0)) by now rewrite length_map.
  apply map_nth.
Qed.

Lemma last_slot_rows {A : Type} (t : list (list A)) (d : A) :
  Forall (fun w => w <> []) t ->
  last_slot t = Some (map (fun w => last w d) t).
Proof.
  induction 1 as [|w t Hw _ IH]; simpl; [reflexivity|].
  rewrite IH. destruct (rev w) as [|x l] eqn:E.
  - apply (f_equal (@rev A)) in E. rewrite rev_involutive in E. now subst.
  - apply (f_equal (@rev A)) in E. rewrite rev_involutive in E. subst w.
    simpl. now rewrite last_last.
Qed.

Lemma map2_length_min {A B C : Type} (f : A -> B -> C) (a : list A) (b : list B) :
  length (map2 f a b) = Nat.min (length a) (length b).
Proof.
  revert b. induction a as [|x a IH]; intros [|y b]; simpl; try reflexivity.
  now rewrite IH.
Qed.

Ltac tensor_length :=
  unfold pointwise, Vec in *; rewrite ?map2_length_min, ?length_map; lia.

(** The target on a batch of [n] samples, entry by entry. *)
Lemma target_q_entries (X : External) (self : Trainer.t X)
    (reward_batch done_batch : list Vec) (next_q1 next_q2 next_log_pi : Vec)
    (n : nat) :
  batch_of n reward_batch done_batch ->
  length next_q1 = n -> length next_q2 = n -> length next_log_pi = n ->
  exists target,
    Trainer.target_q X self reward_batch done_batch next_q1 next_q2 next_log_pi
    = Some target /\
    length target = n /\
    forall b, (b < n)%nat ->
      at_ target b
      = last_of_row reward_batch b
        + (1 - last_of_row done_batch b) * discount (Trainer.config X self)
          * (Qmin (at_ next_q1 b) (at_ next_q2 b)
             - Trainer.alpha X self * at_ next_log_pi b).
Proof.
  intros (Hr & Hd & Hrne & Hdne) H1 H2 Hp.
  unfold Trainer.target_q.
  rewrite (last_slot_rows reward_batch 0 Hrne),
          (last_slot_rows done_batch 0 Hdne).
  repeat (rewrite ew2_same_length by tensor_length; simpl bind).
  eexists. split; [reflexivity|]. split; [tensor_length|].
  intros b Hb. unfold at_, last_of_row.
  repeat (rewrite (nth_map2 _ _ _ _ 0 0) by tensor_length).
  rewrite !nth_pointwise by tensor_length.
  rewrite (nth_indep (map _ reward_batch) 0 (last [] 0)) by tensor_length.
  rewrite (map_nth (fun w => last w 0) reward_batch []).
  rewrite (nth_indep (map _ done_batch) 0 (last [] 0)) by tensor_length.
  rewrite (map_nth (fun w => last w 0) done_batch []).
  reflexivity.
Qed.

(** C7.  When [updateSLAC] returns, the critic loss it reports is
    [mse(curr_q1, target) + mse(curr_q2, target)] for the two estimates of
    the live critic at (latent, last action) and one target tensor.  That
    target is computed from the two estimates [next_q1], [next_q2] of the
    target critic at (next latent, next action), where the next action and
    its log-probability are sampled from the actor on the next
    feature-action vector; on a batch of [n] samples its entry [b] is
    [reward + (1 - done) * discount * next_q] with the reward and done flag
    of the last time step of sample [b] and
    [next_q = min(next_q1, next_q2) - alpha * next_log_pi]. *)
Theorem updateSLAC_td_target (X : External) (self self' : Trainer.t X)
    (eps1 eps2 eps3 : Noise X) (batch : Batch) (td : Vec)
    (actor_loss critic_loss alpha_loss entropy : Q) :
  Trainer.updateSLAC X self eps1 eps2 eps3 batch
  = Some (self', (td, (actor_loss, critic_loss, alpha_loss, entropy))) ->
  let feature_ :=
    encoder X (Trainer.latent X self) (obs_vision batch) (obs_force batch) in
  let z_ :=
    sample_posterior X (Trainer.latent X self) eps1 feature_ (action_batch batch) in
  let next_feature_action :=
    snd (create_feature_actions X feature_ (action_batch batch)) in
  let sampled := actor_sample X (Trainer.actor X self) eps2 next_feature_action in
  let next_action := fst sampled in
  let next_log_pi := snd sampled in
  exists z next_z last_action target l1 l2,
    before_last_slot z_ = Some z /\
    last_slot z_ = Some next_z /\
    last_slot (action_batch batch) = Some last_action /\
    let next_q :=
      critic_forward X (Trainer.critic_target X self) next_z next_action in
    let curr_q := critic_forward X (Trainer.critic X self) z last_action in
    Trainer.target_q X self (reward_batch batch) (done_batch batch)
      (fst next_q) (snd next_q) next_log_pi = Some target /\
    mse_loss (fst curr_q) target = Some l1 /\
    mse_loss (snd curr_q) target = Some l2 /\
    critic_loss = l1 + l2 /\
    forall n,
      batch_of n (reward_batch batch) (done_batch batch) ->
      length (fst next_q) = n -> length (snd next_q) = n ->
      length next_log_pi = n ->
      length target = n /\
      forall b, (b < n)%nat ->
        at_ target b
        = last_of_row (reward_batch batch) b
          + (1 - last_of_row (done_batch batch) b)
            * discount (Trainer.config X self)
            * (Qmin (at_ (fst next_q) b) (at_ (snd next_q) b)
               - Trainer.alpha X self * at_ next_log_pi b).
Proof.
  intros H feature_ z_ next_feature_action sampled next_action next_log_pi.
  unfold Trainer.updateSLAC in H. bind_inv H.
  destruct a as [[[z feature_action] target] critic_loss_fn].
  unfold Trainer.critic_objective, Trainer.processBatch in E.
  simpl in E. fold feature_ z_ in E.
  bind_inv_as E z0 Ez. bind_inv_as E next_z Enz.
  subst next_action next_log_pi sampled next_feature_action.
  destruct (create_feature_actions X feature_ (action_batch batch))
    as [fa nfa].
  simpl snd.
  destruct (actor_sample X (Trainer.actor X self) eps2 nfa)
    as [next_action next_log_pi].
  simpl fst; simpl snd.
  destruct (critic_forward X (Trainer.critic_target X self) next_z next_action)
    as [next_q1 next_q2] eqn:Eq.
  bind_inv_as E tgt Et. bind_inv_as E la Ela.
  injection E as Hz Hfa Ht Hfn. subst z0 fa tgt critic_loss_fn.
  bind_inv_as H la' Ela'. assert (la' = la) as -> by congruence.
  bind_inv_as H cl Ecl. unfold Trainer.critic_loss_of in Ecl.
  destruct (critic_forward X (Trainer.critic X self) z la)
    as [curr_q1 curr_q2] eqn:Ec.
  bind_inv_as Ecl l1 El1. bind_inv_as Ecl l2 El2. injection Ecl as <-.
  exists z, next_z, la, target, l1, l2.
  rewrite Eq, Ec. cbn [fst snd].
  repeat (split; [assumption|]).
  split.
  - do 3 bind_inv H.
    repeat match type of H with
           | context [let '(_, _) := ?e in _] => destruct e
           end.
    bind_inv H.
    repeat match type of H with
           | context [let '(_, _) := ?e in _] => destruct e
           end.
    injection H as _ _ _ Hcl _ _. symmetry. exact Hcl.
  - intros n Hb L1 L2 Lp.
    destruct (target_q_entries X self _ _ _ _ _ n Hb L1 L2 Lp)
      as (t' & Et' & Hl & Hf).
    assert (t' = target) as -> by congruence. split; assumption.
Qed.

Lemma updateSLAC_td_target_witness :
  exists self' td losses target,
    Trainer.updateSLAC Stub.external Stub.trainer tt tt tt Stub.batch
    = Some (self', (td, losses)) /\
    length target = 1%nat /\
    at_ target 0 = 1 + (1 - 0) * (9 # 10) * (Qmin 1 2 - (1 # 100) * - (1)).
Proof.
  destruct (Trainer.updateSLAC Stub.external Stub.trainer tt tt tt Stub.batch)
    as [[self' [td [[[al cl] pl] en]]]|] eqn:E;
    [|vm_compute in E; discriminate E].
  destruct (updateSLAC_td_target _ _ _ _ _ _ _ _ _ _ _ _ E)
    as (z & next_z & la & target & l1 & l2 & _ & Hnz & _ & _ & _ & _ & _ & Hn).
  vm_compute in Hnz. injection Hnz as <-.
  assert (Hb : batch_of 1 (reward_batch Stub.batch) (done_batch Stub.batch)).
  { repeat split; repeat constructor; discriminate. }
  destruct (Hn 1%nat Hb eq_refl eq_refl eq_refl) as [Hl Hf].
  exists self', td, (al, cl, pl, en), target.
  split; [reflexivity|]. split; [exact Hl|].
  apply (Hf 0%nat). lia.
Defined.

(** ** The loop of [continuousUpdateWeights] *)

Section Loop.

Variable X : External.

Local Abbreviation Machine := (Trainer.Machine X).
Local Abbreviation Input := (Trainer.Input X).
Local Abbreviation step := (Trainer.step X).
Local Abbreviation run := (Trainer.run X).
Local Abbreviation pc := (Trainer.pc X).
Local Abbreviation self := (Trainer.self X).

Ltac break_match :=
  repeat match goal with
         | |- context [match ?x with _ => _ end] => destruct x eqn:?
         end.


Lemma run_cons (i : Input) (l : list Input) (m : Machine) :
  run (i :: l) m = run l (step i m).
Proof. reflexivity. Qed.

Lemma updateLatent_frame (s s' : Trainer.t X) (eps : Noise X) (b : Batch)
    (ev : Trainer.Event) (l : Q) :
  Trainer.updateLatent X s eps b = (s', ev, l) -> policy_part s' = policy_part s.
Proof.
  unfold Trainer.updateLatent, Trainer.optimize. break_match.
  intros H; injection H as <- _ _. reflexivity.
Qed.

Lemma updateLatentAlign_frame (s s' : Trainer.t X) (eps : Noise X) (b : Batch)
    (l : Q) :
  Trainer.updateLatentAlign X s eps b = (s', l) -> policy_part s' = policy_part s.
Proof.
  unfold Trainer.updateLatentAlign, Trainer.optimize. break_match.
  intros H; injection H as <- _. reflexivity.
Qed.

(** One statement executed before the policy loop is entered leaves the
    policy part alone, and no statement leads back there. *)
Lemma step_before_policy (i : Input) (m : Machine) :
  Trainer.before_policy (pc (step i m)) = true ->
  Trainer.before_policy (pc m) = true /\
  policy_part (self (step i m)) = policy_part (self m).
Proof.
  destruct m as [p s b ll l tr].
  unfold Trainer.step, Trainer.do_updateLatent, Trainer.do_updateLatentAlign.
  cbn [Trainer.pc Trainer.self Trainer.batch].
  destruct p; break_match; cbn; intros H; try discriminate H;
    split; try reflexivity;
    eauto using updateLatent_frame, updateLatentAlign_frame.
Qed.

Lemma run_before_policy (inputs : list Input) (m : Machine) :
  Trainer.before_policy (pc (run inputs m)) = true ->
  Trainer.before_policy (pc m) = true /\
  policy_part (self (run inputs m)) = policy_part (self m).
Proof.
  revert m. induction inputs as [|i inputs IH]; intros m H.
  - now split.
  - rewrite run_cons in H |- *.
    destruct (IH _ H) as [H1 H2].
    destruct (step_before_policy _ _ H1) as [H3 H4].
    split; [assumption | congruence].
Qed.

End Loop.

(** ** C8: pretraining leaves the actor and the critic alone *)

(** C8.  Neither [updateLatent] nor [updateLatentAlign] touches the actor,
    the critic, the target critic, their optimisers or the temperature.
    And at every point of a run of [continuousUpdateWeights] that has not
    yet entered the policy loop (in particular at every point of the
    pretraining loop), the actor, the critic and the target critic are the
    ones of the call, and so are the actor and critic optimisers with their
    numbers of [step()] calls. *)
Theorem pretraining_frame (X : External) (s : Trainer.t X)
    (inputs : list (Trainer.Input X)) :
  (forall eps b, policy_part (fst (fst (Trainer.updateLatent X s eps b)))
                 = policy_part s) /\
  (forall eps b, policy_part (fst (Trainer.updateLatentAlign X s eps b))
                 = policy_part s) /\
  let m := Trainer.run X inputs (Trainer.enter X s) in
  (Trainer.before_policy (Trainer.pc X m) = true ->
   policy_part (Trainer.self X m) = policy_part s).
Proof.
  split; [|split].
  - intros eps b.
    destruct (Trainer.updateLatent X s eps b) as [[s' ev] l] eqn:E.
    now apply updateLatent_frame in E.
  - intros eps b.
    destruct (Trainer.updateLatentAlign X s eps b) as [s' l] eqn:E.
    now apply updateLatentAlign_frame in E.
  - intros m H. now apply run_before_policy in H.
Qed.

(** A run of the stub trainer that ends inside the pretraining loop, after
    one [updateLatent] and one [updateLatentAlign]. *)
Lemma pretraining_frame_witness :
  let m := Trainer.run Stub.external
             (repeat (Stub.input false false) 6)
             (Trainer.enter Stub.external Stub.trainer) in
  Trainer.pc Stub.external m = Trainer.PrePublish /\
  Trainer.opt_steps Stub.external
    (Trainer.latent_optimizer Stub.external (Trainer.self Stub.external m))
  = 2%nat /\
  policy_part (Trainer.self Stub.external m) = policy_part Stub.trainer.
Proof.
  intros m. split; [reflexivity|]. split; [reflexivity|].
  apply (pretraining_frame Stub.external Stub.trainer
           (repeat (Stub.input false false) 6)).
  reflexivity.
Defined.

(** ** The policy loop under a set terminate flag *)

Section Termination.

Variable X : External.

Local Abbreviation Machine := (Trainer.Machine X).
Local Abbreviation Input := (Trainer.Input X).
Local Abbreviation step := (Trainer.step X).
Local Abbreviation run := (Trainer.run X).
Local Abbreviation pc := (Trainer.pc X).
Local Abbreviation self := (Trainer.self X).
Local Abbreviation completed := (Trainer.cycles_completed X).
Local Abbreviation started := (Trainer.cycles_started X).

Ltac break_match :=
  repeat match goal with
         | |- context [match ?x with _ => _ end] => destruct x eqn:?
         end.

Ltac break_hyp H :=
  repeat match type of H with
         | context [match ?x with _ => _ end] => destruct x eqn:?
         end.






















End Termination.

(** ** C9: a terminate signal lets the iteration in flight finish *)



(** * Further properties of the agent *)

(** ** The affine pair in the other direction, and planner actions *)

Lemma unscale1_decode1 (r : Range) (u : Q) :
  proper r -> unscale1 r (decode1 r u) == u.
Proof.
  unfold proper, decode1, unscale1. destruct r as [lo hi]; simpl.
  intros H. field. lra.
Qed.








(** The normalisation undoes the decoding: for an agent whose ranges
    satisfy [min < max], normalising the rows that [decodeActions] returns
    gives back the normalised rows it was given. *)
Theorem unscale_decoded_roundtrip
    (self : Agent.t) (up udx udy udz udtheta : Vec) (urows : list Vec) :
  proper_ranges self ->
  stack5 up udx udy udz udtheta = Some urows ->
  exists actions,
    Agent.decodeActions self up udx udy udz udtheta = Some (urows, actions) /\
    rows_eq (map (unscale_row self) actions) urows.
Proof.
  intros (Hp & Hx & Hy & Hz & Ht) Hs.
  exists (map (decode_row self) urows).
  split; [now apply decodeActions_rows|].
  rewrite map_map. apply Forall2_map_self.
  destruct (stack5_inv _ _ _ _ _ _ Hs) as (_ & _ & _ & _ & _ & Hl).
  eapply Forall_impl; [|exact Hl].
  intros r Hr.
  destruct r as [|x0 [|x1 [|x2 [|x3 [|x4 [|x5 r]]]]]]; try discriminate Hr.
  unfold unscale_row, decode_row, map5; simpl.
  repeat constructor; apply unscale1_decode1; assumption.
Qed.

Lemma unscale_decoded_roundtrip_witness :
  exists actions,
    Agent.decodeActions Stub.agent [3] [- (2)] [0] [1 # 2] [1]
    = Some ([[3; - (2); 0; 1 # 2; 1]], actions) /\
    rows_eq (map (unscale_row Stub.agent) actions) [[3; - (2); 0; 1 # 2; 1]].
Proof.
  apply (unscale_decoded_roundtrip Stub.agent [3] [- (2)] [0] [1 # 2] [1]).
  - unfold proper_ranges, proper; simpl. repeat split; reflexivity.
  - reflexivity.
Defined.









Lemma column_Some_inv (i : nat) (rows : list Vec) (c : Vec) :
  column i rows = Some c ->
  c = map (fun r => nth i r 0) rows /\
  Forall (fun r => (i < length r)%nat) rows.
Proof.
  revert c. induction rows as [|r rows IH]; simpl; intros c H.
  - injection H as <-. split; [reflexivity | constructor].
  - destruct (nth_error r i) as [x|] eqn:E; [|discriminate].
    destruct (column i rows) as [c'|]; [|discriminate].
    injection H as <-. destruct (IH _ eq_refl) as [-> HF].
    split.
    + simpl. f_equal. symmetry. now apply nth_error_nth.
    + constructor; [|assumption]. apply nth_error_Some. congruence.
Qed.



(** [decodeActions] returns exactly when its five columns have the same
    size, and then both results have one row per entry. *)
Theorem decodeActions_needs_equal_sizes
    (self : Agent.t) (up udx udy udz udtheta : Vec) :
  ((exists out, Agent.decodeActions self up udx udy udz udtheta = Some out) <->
   length udx = length up /\ length udy = length up /\
   length udz = length up /\ length udtheta = length up) /\
  (forall unscaled actions,
     Agent.decodeActions self up udx udy udz udtheta = Some (unscaled, actions) ->
     length unscaled = length up /\ length actions = length up).
Proof.
  split; [split|].
  - intros [out H]. unfold Agent.decodeActions in H.
    bind_inv H. bind_inv H.
    apply stack5_length in E0 as (L0 & L1 & L2 & L3 & L4).
    repeat split; congruence.
  - intros (L1 & L2 & L3 & L4).
    destruct (stack5_total up udx udy udz udtheta L1 L2 L3 L4) as [rows E].
    rewrite (decodeActions_rows _ _ _ _ _ _ _ E). eauto.
  - intros unscaled actions H.
    unfold Agent.decodeActions in H. bind_inv H. bind_inv H.
    injection H as <- <-.
    apply stack5_length in E as (L0 & _).
    apply stack5_length in E0 as (L0' & _).
    unfold pointwise in L0. rewrite length_map in L0. split; congruence.
Qed.

Lemma decodeActions_needs_equal_sizes_witness :
  Agent.decodeActions Stub.agent [0; 0] [0] [0; 0] [0; 0] [0; 0] = None /\
  exists out, Agent.decodeActions Stub.agent [0; 0] [1; 1] [0; 0] [0; 0] [0; 0]
              = Some out.
Proof.
  split.
  - destruct (Agent.decodeActions Stub.agent [0; 0] [0] [0; 0] [0; 0] [0; 0])
      as [out|] eqn:E; [|reflexivity].
    pose proof (proj1 (proj1 (decodeActions_needs_equal_sizes Stub.agent
                                [0; 0] [0] [0; 0] [0; 0] [0; 0]))
                  (ex_intro _ out E)) as (H & _).
    discriminate H.
  - apply (proj2 (proj1 (decodeActions_needs_equal_sizes Stub.agent
                           [0; 0] [1; 1] [0; 0] [0; 0] [0; 0]))).
    repeat split.
Defined.

(** ** More on [getAction] and [resetEpisode] *)

(** A [getAction] call that returns, with every intermediate result. *)
Lemma getAction_run (X : External) (self self' : Agent.t) (eps : Noise X)
    (vision : list Frame) (force : list (list Vec)) (proprio : list Vec)
    (evaluate : bool) (idx act : list Vec) (v : Q) :
  Agent.getAction X self eps vision force proprio evaluate
  = Some (self', (idx, act, v)) ->
  let cfg := Agent.config self in
  exists force1 vh fh zrows arows z action lp ah,
    Agent.preprocess_force X self
      (length (Agent.preprocess_vision X self vision)) force = Some force1 /\
    assign_last (roll (Agent.vision_history self))
      (Agent.preprocess_vision X self vision) = Some vh /\
    assign_last (roll (Agent.force_history self)) force1 = Some fh /\
    view_rows (num_data_gen_envs cfg)
      (concat (concat (encoder X (Agent.latent self) vh fh))) = Some zrows /\
    view_rows (num_data_gen_envs cfg)
      (concat (concat (Agent.action_history self))) = Some arows /\
    cat1 zrows arows = Some z /\
    actor_sample X (Agent.actor self) eps z = (action, lp) /\
    assign_last (roll (Agent.action_history self)) action = Some ah /\
    Agent.decode_columns self action = Some (idx, act) /\
    v = 0 /\
    self' = Agent.with_histories self vh fh ah.
Proof.
  intros H cfg. unfold Agent.getAction in H.
  bind_inv_as H force1 Hf. bind_inv_as H proprio1 Hp.
  bind_inv_as H vh Hvh. bind_inv_as H fh Hfh.
  bind_inv_as H zrows Hz. bind_inv_as H arows Ha. bind_inv_as H z Hc.
  destruct evaluate;
    destruct (actor_sample X (Agent.actor self) eps z) as [action lp] eqn:Es;
    bind_inv_as H ah Hah; bind_inv_as H dec Hd; destruct dec as [i' a'];
    cbv zeta in H; injection H as E1 E2 E3 E4; subst self' idx act v;
    exists force1, vh, fh, zrows, arows, z, action, lp, ah;
    repeat split; assumption.
Qed.

Lemma decode_columns_inv (self : Agent.t) (action idx act : list Vec) :
  Agent.decode_columns self action = Some (idx, act) ->
  Agent.action_shape self = 5%nat /\
  Forall (fun r => (5 <= length r)%nat) action /\
  idx = map (map5 (fun x => x) (fun x => x) (fun x => x) (fun x => x)
                  (fun x => x)) action /\
  act = map (decode_row self) idx.
Proof.
  unfold Agent.decode_columns. intros H.
  destruct (Agent.action_shape self) as [|[|[|[|[|[|n]]]]]]; try discriminate H.
  bind_inv_as H c0 E0. bind_inv_as H c1 E1. bind_inv_as H c2 E2.
  bind_inv_as H c3 E3. bind_inv_as H c4 E4.
  apply column_Some_inv in E0 as [-> _]. apply column_Some_inv in E1 as [-> _].
  apply column_Some_inv in E2 as [-> _]. apply column_Some_inv in E3 as [-> _].
  apply column_Some_inv in E4 as [-> H4].
  rewrite (decodeActions_rows _ _ _ _ _ _ _ (stack5_maps _ _ _ _ _ _)) in H.
  injection H as <- <-.
  repeat split; try reflexivity.
  eapply Forall_impl; [|exact H4]. simpl; intros; lia.
Qed.

(** What a [getAction] call returns and what it remembers.  The unscaled
    result holds the first five components of the rows the actor sampled,
    the scaled result is their decoding, the value is 0; the action history
    is shifted by one slot with the sampled rows as newest entries.  When
    the ranges satisfy [min <= max] and the sampled components lie in
    [-1, 1], every scaled component lies in its range. *)
Theorem getAction_returns_decoded_sample
    (X : External) (self self' : Agent.t) (eps : Noise X)
    (vision : list Frame) (force : list (list Vec)) (proprio : list Vec)
    (evaluate : bool) (idx act : list Vec) (v : Q) :
  Agent.getAction X self eps vision force proprio evaluate
  = Some (self', (idx, act, v)) ->
  exists z action anew,
    action = fst (actor_sample X (Agent.actor self) eps z) /\
    Forall (fun r => (5 <= length r)%nat) action /\
    idx = map (firstn 5) action /\
    act = map (decode_row self) idx /\
    v = 0 /\
    expand (length (Agent.action_history self)) action = Some anew /\
    buffer_shifted (Agent.action_history self) (Agent.action_history self')
                   anew /\
    (ordered_ranges self -> Forall in_unit idx ->
     Forall (in_ranges self) act).
Proof.
  intros H.
  destruct (getAction_run _ _ _ _ _ _ _ _ _ _ _ H)
    as (force1 & vh & fh & zrows & arows & z & action & lp & ah
        & _ & _ & _ & _ & _ & _ & Es & Hah & Hd & Hv & ->).
  apply decode_columns_inv in Hd as (_ & H5 & Hidx & Hact).
  destruct (assign_last_roll_shifted _ _ _ Hah) as (anew & Ha1 & Ha2).
  exists z, action, anew. rewrite Es. simpl.
  split; [reflexivity|]. split; [assumption|].
  assert (Hfirst : idx = map (firstn 5) action).
  { rewrite Hidx. apply map_ext_in. intros r Hr.
    rewrite Forall_forall in H5. specialize (H5 r Hr).
    destruct r as [|x0 [|x1 [|x2 [|x3 [|x4 r]]]]]; simpl in H5; try lia.
    reflexivity. }
  split; [assumption|]. split; [assumption|]. split; [assumption|].
  split; [assumption|]. split; [assumption|].
  intros Hord Hin. rewrite Hact. apply Forall_map.
  unfold ordered_ranges in Hord. rewrite Forall_forall in Hord.
  eapply Forall_impl; [|exact Hin]. intros r Hr.
  destruct r as [|x0 [|x1 [|x2 [|x3 [|x4 [|x5 r]]]]]]; simpl in Hr; try tauto.
  destruct Hr as (H0 & H1 & H2 & H3 & H4).
  unfold in_ranges, decode_row. apply row5_map5; simpl;
    apply decode1_within; try assumption; apply Hord; simpl; tauto.
Qed.

Lemma getAction_returns_decoded_sample_witness :
  exists self' idx act v,
    Agent.getAction Stub.external Stub.agent tt
      [ [[[7]]] ] [[ [3; 3]; [5; 5] ]] [[1]] false = Some (self', (idx, act, v)) /\
    act = map (decode_row Stub.agent) idx /\ v = 0 /\
    Forall (in_ranges Stub.agent) act.
Proof.
  destruct (Agent.getAction Stub.external Stub.agent tt
              [ [[[7]]] ] [[ [3; 3]; [5; 5] ]] [[1]] false)
    as [[self' [[idx act] v]]|] eqn:E; [|vm_compute in E; discriminate E].
  destruct (getAction_returns_decoded_sample _ _ _ _ _ _ _ _ _ _ _ E)
    as (z & action & anew & _ & _ & _ & Hact & Hv & _ & _ & Hr).
  exists self', idx, act, v. split; [reflexivity|].
  split; [assumption|]. split; [assumption|].
  apply Hr.
  - repeat constructor; discriminate.
  - vm_compute in E. injection E as _ <- _ _.
    constructor; [|constructor].
    unfold in_unit, unit_interval; simpl. repeat split; discriminate.
Defined.

(** The [evaluate] flag changes nothing: both branches of [getAction] draw
    the action with [actor.sample]. *)
Theorem getAction_ignores_evaluate (X : External) (self : Agent.t)
    (eps : Noise X) (vision : list Frame) (force : list (list Vec))
    (proprio : list Vec) :
  Agent.getAction X self eps vision force proprio true
  = Agent.getAction X self eps vision force proprio false.
Proof. reflexivity. Qed.

(** A [getAction] call changes the three histories and nothing else: the
    configuration, the five ranges and the weights of the three models are
    the ones before the call. *)
Theorem getAction_keeps_models (X : External) (self self' : Agent.t)
    (eps : Noise X) (vision : list Frame) (force : list (list Vec))
    (proprio : list Vec) (evaluate : bool) (out : list Vec * list Vec * Q) :
  Agent.getAction X self eps vision force proprio evaluate = Some (self', out) ->
  Agent.getWeights self' = Agent.getWeights self /\
  Agent.config self' = Agent.config self /\
  ranges self' = ranges self /\
  Agent.action_shape self' = Agent.action_shape self.
Proof.
  intros H.
  destruct (getAction_Some _ _ _ _ _ _ _ _ _ H)
    as (force1 & vh & fh & action & ah & _ & _ & _ & _ & ->).
  repeat split.
Qed.

Lemma getAction_keeps_models_witness :
  exists self' out,
    Agent.getAction Stub.external Stub.agent tt
      [ [[[7]]] ] [[ [3; 3]; [5; 5] ]] [[1]] true = Some (self', out) /\
    Agent.getWeights self' = (Stub.net 1, Stub.net 2, Stub.net 3).
Proof.
  destruct (Agent.getAction Stub.external Stub.agent tt
              [ [[[7]]] ] [[ [3; 3]; [5; 5] ]] [[1]] true)
    as [[self' out]|] eqn:E; [|vm_compute in E; discriminate E].
  exists self', out. split; [reflexivity|].
  now destruct (getAction_keeps_models _ _ _ _ _ _ _ _ _ E) as [-> _].
Defined.

Lemma last_slot_empty_window {A : Type} (t : list (list A)) :
  In [] t -> last_slot t = None.
Proof.
  induction t as [|w t IH]; simpl; [tauto|].
  intros [->|H]; [reflexivity|].
  rewrite (IH H). now destruct (rev w).
Qed.




(** [force[:, -1, :]] needs a force reading: when the force history of some
    environment is empty, [getAction] raises. *)
Theorem getAction_needs_force_reading (X : External) (self : Agent.t)
    (eps : Noise X) (vision : list Frame) (force : list (list Vec))
    (proprio : list Vec) (evaluate : bool) :
  In [] force ->
  Agent.getAction X self eps vision force proprio evaluate = None.
Proof.
  intros H. unfold Agent.getAction, Agent.preprocess_force.
  now rewrite (last_slot_empty_window _ H).
Qed.

Lemma getAction_needs_force_reading_witness :
  Agent.getAction Stub.external Stub.agent tt [ [[[7]]] ] [[]] [[1]] false
  = None.
Proof.
  apply getAction_needs_force_reading. now left.
Defined.

(** [resetEpisode] forgets the histories: its result does not depend on
    them, so after a [getAction] call it gives the state it gave before the
    call, and resetting twice is resetting once. *)
Theorem resetEpisode_forgets_history (X : External) (self : Agent.t) :
  (forall vh fh ah,
     Agent.resetEpisode (Agent.with_histories self vh fh ah)
     = Agent.resetEpisode self) /\
  (forall self0,
     Agent.resetEpisode self = Some self0 ->
     Agent.resetEpisode self0 = Some self0) /\
  (forall eps vision force proprio evaluate self' out,
     Agent.getAction X self eps vision force proprio evaluate
     = Some (self', out) ->
     Agent.resetEpisode self' = Agent.resetEpisode self).
Proof.
  split; [|split].
  - intros vh fh ah. unfold Agent.resetEpisode. simpl.
    destruct (Agent.zero_histories (Agent.config self)) as [[[v f] a]|];
      reflexivity.
  - intros self0 H. unfold Agent.resetEpisode in *.
    destruct (Agent.zero_histories (Agent.config self)) as [[[v f] a]|] eqn:E;
      simpl in H; [|discriminate H].
    injection H as <-. simpl. rewrite E. reflexivity.
  - intros eps vision force proprio evaluate self' out H.
    destruct (getAction_Some _ _ _ _ _ _ _ _ _ H)
      as (force1 & vh & fh & action & ah & _ & _ & _ & _ & ->).
    unfold Agent.resetEpisode. simpl.
    destruct (Agent.zero_histories (Agent.config self)) as [[[v f] a]|];
      reflexivity.
Qed.

Lemma resetEpisode_forgets_history_witness :
  exists self' out,
    Agent.getAction Stub.external Stub.agent tt
      [ [[[7]]] ] [[ [3; 3]; [5; 5] ]] [[1]] false = Some (self', out) /\
    Agent.resetEpisode self' = Agent.resetEpisode Stub.agent.
Proof.
  destruct (Agent.getAction Stub.external Stub.agent tt
              [ [[[7]]] ] [[ [3; 3]; [5; 5] ]] [[1]] false)
    as [[self' out]|] eqn:E; [|vm_compute in E; discriminate E].
  exists self', out. split; [reflexivity|].
  exact (proj2 (proj2 (resetEpisode_forgets_history Stub.external Stub.agent))
           tt _ _ _ _ _ _ E).
Defined.

(** ** More on [setWeights] and [getWeights] *)

Lemma load_params_inv (m m' : Net) (sd : StateDict) :
  load_params m sd = Some m' ->
  forall k t, In (k, t) m ->
    exists v, lookup k sd = Some v /\ length v = length t.
Proof.
  revert m'. induction m as [|[k0 t0] m IH]; simpl; intros m' H k t Hin;
    [tauto|].
  bind_inv_as H v Hv.
  destruct (length v =? length t0)%nat eqn:El; [|discriminate H].
  bind_inv_as H m1 Hm.
  destruct Hin as [E|Hin].
  - injection E as <- <-. exists v. split; [assumption|].
    now apply Nat.eqb_eq.
  - now apply (IH _ Hm).
Qed.

(** [load_state_dict] returns exactly on the dicts the module accepts. *)
Lemma load_state_dict_Some_loadable (m m' : Net) (sd : StateDict) :
  load_state_dict m sd = Some m' -> loadable m sd.
Proof.
  unfold load_state_dict. intros H.
  destruct (forallb (has_key sd) (keys m)) eqn:E1; [|discriminate H].
  destruct (forallb (has_key m) (keys sd)) eqn:E2; [|discriminate H].
  simpl in H. rewrite forallb_forall in E1, E2. split.
  - intros k. split; intros Hk; apply has_key_In; auto.
  - intros k t v Hin Hv.
    destruct (load_params_inv _ _ _ H k t Hin) as (v' & Hv' & Hl).
    congruence.
Qed.

Lemma same_shape_keys (a b : Net) : same_shape a b -> keys a = keys b.
Proof.
  unfold keys. induction 1 as [|x y a b [H _] _ IH]; simpl; [reflexivity|].
  f_equal; [exact H | exact IH].
Qed.

Lemma same_shape_loadable (sd m : Net) :
  same_shape sd m -> NoDup (keys sd) -> loadable m sd.
Proof.
  intros Hs Hnd. pose proof (same_shape_keys _ _ Hs) as Hk. split.
  - intros k. now rewrite Hk.
  - induction Hs as [|[k0 v0] [k1 t1] sd m [Hf Hl] Hs IH]; simpl in *;
      [tauto|].
    subst k1. injection Hk as Hk. inversion Hnd as [|? ? Hnotin Hnd']; subst.
    intros k t v [E|Hin] Hv.
    + injection E as <- <-. rewrite String.eqb_refl in Hv.
      injection Hv as <-. exact Hl.
    + destruct (String.eqb_spec k k0) as [->|Hne].
      * exfalso. apply Hnotin. rewrite Hk. change k0 with (fst (k0, t)).
        now apply in_map.
      * now apply (IH Hnd' Hk k t v).
Qed.

Lemma load_state_dict_same_shape (sd m : Net) :
  same_shape sd m -> NoDup (keys sd) -> load_state_dict m sd = Some sd.
Proof.
  intros Hs Hnd.
  destruct (load_state_dict_loadable m sd (same_shape_loadable _ _ Hs Hnd))
    as (m' & E & _ & _ & Q).
  rewrite E. f_equal. apply Q; [now apply same_shape_keys | assumption].
Qed.

Lemma same_shape_refl (a : Net) : same_shape a a.
Proof. induction a; constructor; auto. Qed.

(** Weights exported by one agent load into any agent whose three models
    have the same parameter names and sizes (names unique): [setWeights]
    returns, the receiving agent then exports exactly those weights, and
    its histories, ranges and configuration are untouched. *)
Theorem setWeights_transfers_weights (a b : Agent.t) :
  same_shape (Agent.latent a) (Agent.latent b) ->
  same_shape (Agent.actor a) (Agent.actor b) ->
  same_shape (Agent.critic a) (Agent.critic b) ->
  NoDup (keys (Agent.latent a)) -> NoDup (keys (Agent.actor a)) ->
  NoDup (keys (Agent.critic a)) ->
  exists b',
    Agent.setWeights b (Some (Agent.getWeights a)) = Some b' /\
    Agent.getWeights b' = Agent.getWeights a /\
    b' = Agent.with_nets b (Agent.latent a) (Agent.actor a) (Agent.critic a).
Proof.
  intros Sl Sa Sc Nl Na Nc.
  unfold Agent.setWeights, Agent.getWeights, state_dict.
  rewrite (load_state_dict_same_shape _ _ Sl Nl),
          (load_state_dict_same_shape _ _ Sa Na),
          (load_state_dict_same_shape _ _ Sc Nc).
  simpl. eexists. repeat split.
Qed.

Lemma setWeights_transfers_weights_witness :
  exists b',
    Agent.setWeights Stub.agent
      (Some (Agent.getWeights
               (Agent.with_nets Stub.agent (Stub.net 7) (Stub.net 8)
                                (Stub.net 9)))) = Some b' /\
    Agent.getWeights b' = (Stub.net 7, Stub.net 8, Stub.net 9).
Proof.
  assert (S : forall x y, same_shape (Stub.net x) (Stub.net y))
    by (intros; repeat constructor).
  assert (N : forall y, NoDup (keys (Stub.net y)))
    by (intros y; repeat constructor; simpl; intuition discriminate).
  destruct (setWeights_transfers_weights
              (Agent.with_nets Stub.agent (Stub.net 7) (Stub.net 8) (Stub.net 9))
              Stub.agent (S _ _) (S _ _) (S _ _) (N _) (N _) (N _))
    as (b' & E & G & _).
  exists b'. split; [exact E | exact G].
Defined.

(** Export then import is the identity: loading an agent's own weights
    (parameter names unique) returns the agent unchanged. *)
Theorem setWeights_own_weights (self : Agent.t) :
  NoDup (keys (Agent.latent self)) -> NoDup (keys (Agent.actor self)) ->
  NoDup (keys (Agent.critic self)) ->
  Agent.setWeights self (Some (Agent.getWeights self)) = Some self.
Proof.
  intros Nl Na Nc.
  unfold Agent.setWeights, Agent.getWeights, state_dict.
  rewrite !load_state_dict_same_shape by (assumption || apply same_shape_refl).
  simpl. now destruct self.
Qed.

Lemma setWeights_own_weights_witness :
  Agent.setWeights Stub.agent (Some (Agent.getWeights Stub.agent))
  = Some Stub.agent.
Proof.
  apply setWeights_own_weights;
    repeat constructor; simpl; intuition discriminate.
Defined.

(** [setWeights] on a triple returns exactly when each of the three models
    accepts its dict: a missing name, an unexpected name or a tensor of
    another size in any of the three is an error. *)
Theorem setWeights_needs_loadable (self : Agent.t) (w0 w1 w2 : StateDict) :
  (exists self', Agent.setWeights self (Some (w0, w1, w2)) = Some self') <->
  loadable (Agent.latent self) w0 /\ loadable (Agent.actor self) w1 /\
  loadable (Agent.critic self) w2.
Proof.
  split.
  - intros [self' H]. unfold Agent.setWeights in H.
    bind_inv_as H l El. bind_inv_as H a Ea. bind_inv_as H c Ec.
    split; [|split]; eapply load_state_dict_Some_loadable; eassumption.
  - intros (H0 & H1 & H2).
    destruct (load_state_dict_loadable _ _ H0) as (l & El & _).
    destruct (load_state_dict_loadable _ _ H1) as (a & Ea & _).
    destruct (load_state_dict_loadable _ _ H2) as (c & Ec & _).
    unfold Agent.setWeights. rewrite El, Ea, Ec. simpl. eauto.
Qed.

Lemma setWeights_needs_loadable_witness :
  Agent.setWeights Stub.agent
    (Some (Stub.net 7, [("weight"%string, [8; 8])], Stub.net 9)) = None.
Proof.
  destruct (Agent.setWeights Stub.agent
              (Some (Stub.net 7, [("weight"%string, [8; 8])], Stub.net 9)))
    as [self'|] eqn:E; [|reflexivity].
  destruct (proj1 (setWeights_needs_loadable Stub.agent _ _ _)
              (ex_intro _ self' E)) as (_ & [Hk _] & _).
  assert (Hb : In "bias"%string (keys (Agent.actor Stub.agent)))
    by (simpl; auto).
  apply Hk in Hb. simpl in Hb. destruct Hb as [Hb|[]]. discriminate Hb.
Defined.

(** * Further properties of the trainer *)

(** ** The soft update as a contraction *)

Lemma soft_update_entries (tau : Q) (target live : Net) :
  same_shape target live ->
  exists net,
    Trainer.soft_update tau target live = Some net /\
    same_shape net live /\
    forall i j,
      (i < length (parameters target))%nat ->
      (j < length (nth i (parameters target) []))%nat ->
      entry (parameters net) i j
      = polyak tau (entry (parameters target) i j)
                   (entry (parameters live) i j).
Proof.
  induction 1 as [|[k t] [k' l] target live [Hk Hl] _ IH]; simpl.
  - exists []. split; [reflexivity|]. split; [constructor|].
    intros i j Hi. simpl in Hi. lia.
  - simpl in Hk, Hl. destruct IH as (net & E & Hs & Hent).
    pose proof (soft_update_pair tau t l Hl) as Hpair.
    apply bind_Some in Hpair as (mixed & Hm & Hc).
    rewrite Hm; simpl. rewrite Hc; simpl. rewrite E; simpl.
    eexists. split; [reflexivity|]. split.
    + constructor; [|exact Hs]. simpl. split; [exact Hk|].
      rewrite map2_length; congruence.
    + intros [|i] j Hi Hj; unfold entry; simpl in *.
      * apply (nth_map2 (polyak tau) t l j 0 0 0); [exact Hj | congruence].
      * apply Hent; [lia | exact Hj].
Qed.

Lemma polyak_distance (tau t l : Q) :
  polyak tau t l - l == (1 - tau) * (t - l).
Proof. unfold polyak. ring. Qed.

Lemma polyak_between (tau t l : Q) :
  0 <= tau <= 1 -> Qmin t l <= polyak tau t l <= Qmax t l.
Proof.
  unfold polyak. intros [H0 H1].
  destruct (Q.min_spec t l) as [[Hlt ->]|[Hle ->]];
    destruct (Q.max_spec t l) as [[Hlt' ->]|[Hle' ->]]; split; nra.
Qed.

(** One soft update moves every target entry towards the live entry: the
    distance to the live entry is multiplied by [1 - tau], and for [tau] in
    [0, 1] the new entry lies between the old target entry and the live
    entry. *)
Theorem softTargetUpdate_contracts (X : External) (self : Trainer.t X) :
  same_shape (Trainer.critic_target X self) (Trainer.critic X self) ->
  let tau := tau (Trainer.config X self) in
  let old := parameters (Trainer.critic_target X self) in
  let live := parameters (Trainer.critic X self) in
  exists self',
    Trainer.softTargetUpdate X self = Some self' /\
    forall i j,
      (i < length old)%nat -> (j < length (nth i old []))%nat ->
      let new := parameters (Trainer.critic_target X self') in
      entry new i j - entry live i j
        == (1 - tau) * (entry old i j - entry live i j) /\
      (0 <= tau <= 1 ->
       Qmin (entry old i j) (entry live i j) <= entry new i j
       /\ entry new i j <= Qmax (entry old i j) (entry live i j)).
Proof.
  intros Hs tau0 old live.
  destruct (soft_update_entries tau0 _ _ Hs) as (net & E & _ & Hent).
  exists (Trainer.set_critic_target X self net).
  unfold Trainer.softTargetUpdate. fold tau0. rewrite E. simpl.
  split; [reflexivity|].
  intros i j Hi Hj. rewrite (Hent i j Hi Hj). fold old live.
  split; [apply polyak_distance|]. intros Ht. now apply polyak_between.
Qed.

Lemma softTargetUpdate_contracts_witness :
  exists self',
    Trainer.softTargetUpdate Stub.external Stub.trainer = Some self' /\
    entry (parameters (Trainer.critic_target Stub.external self')) 0 1 - 3
    == (1 - (1 # 100)) * (4 - 3).
Proof.
  assert (Hs : same_shape (Trainer.critic_target Stub.external Stub.trainer)
                          (Trainer.critic Stub.external Stub.trainer))
    by (repeat constructor).
  destruct (softTargetUpdate_contracts Stub.external Stub.trainer Hs)
    as (self' & E & H).
  exists self'. split; [exact E|].
  apply (H 0%nat 1%nat); simpl; lia.
Defined.

Lemma softTargetUpdate_same_shape (X : External) (self : Trainer.t X) :
  same_shape (Trainer.critic_target X self) (Trainer.critic X self) ->
  exists self',
    Trainer.softTargetUpdate X self = Some self' /\
    Trainer.critic X self' = Trainer.critic X self /\
    Trainer.config X self' = Trainer.config X self /\
    same_shape (Trainer.critic_target X self') (Trainer.critic X self') /\
    forall i j,
      (i < length (parameters (Trainer.critic_target X self)))%nat ->
      (j < length (nth i (parameters (Trainer.critic_target X self)) []))%nat ->
      entry (parameters (Trainer.critic_target X self')) i j
      = polyak (tau (Trainer.config X self))
               (entry (parameters (Trainer.critic_target X self)) i j)
               (entry (parameters (Trainer.critic X self)) i j).
Proof.
  intros Hs.
  destruct (soft_update_entries (tau (Trainer.config X self)) _ _ Hs)
    as (net & E & Hs' & Hent).
  exists (Trainer.set_critic_target X self net).
  unfold Trainer.softTargetUpdate. rewrite E. simpl. repeat split; assumption.
Qed.

Lemma same_shape_entry_bounds (a b : Net) (i j : nat) :
  same_shape a b ->
  (i < length (parameters a))%nat ->
  (j < length (nth i (parameters a) []))%nat ->
  (i < length (parameters b))%nat /\
  (j < length (nth i (parameters b) []))%nat.
Proof.
  intros H. revert i. induction H as [|x y a b [_ Hl] _ IH]; simpl;
    intros i Hi Hj; [lia|].
  destruct i as [|i]; [split; [lia | unfold Vec in *; lia]|].
  destruct (IH i) as [H1 H2]; [lia | assumption |]. split; [lia | assumption].
Qed.

Lemma same_shape_sym (a b : Net) : same_shape a b -> same_shape b a.
Proof.
  induction 1 as [|x y a b [H1 H2] _ IH]; constructor; [split|]; auto.
Qed.

(** Soft updates applied [k] times in a row, the live critic unchanged in
    between, return, and the distance of every target entry to the live
    entry is the initial distance multiplied by [(1 - tau)^k]. *)
Theorem softTargetUpdates_geometric (X : External) (k : nat)
    (self : Trainer.t X) :
  same_shape (Trainer.critic_target X self) (Trainer.critic X self) ->
  let tau := tau (Trainer.config X self) in
  let old := parameters (Trainer.critic_target X self) in
  let live := parameters (Trainer.critic X self) in
  exists self',
    softTargetUpdates k self = Some self' /\
    Trainer.critic X self' = Trainer.critic X self /\
    forall i j,
      (i < length old)%nat -> (j < length (nth i old []))%nat ->
      entry (parameters (Trainer.critic_target X self')) i j - entry live i j
      == qpow (1 - tau) k * (entry old i j - entry live i j).
Proof.
  revert self. induction k as [|k IH]; intros self Hs; cbv zeta; simpl.
  - exists self. split; [reflexivity|]. split; [reflexivity|].
    intros i j _ _. ring.
  - destruct (softTargetUpdate_same_shape X self Hs)
      as (s1 & E1 & Hc1 & Hcfg1 & Hs1 & Hent1).
    destruct (IH s1 Hs1) as (s2 & E2 & Hc2 & Hent2).
    exists s2. rewrite E1. simpl. split; [exact E2|].
    split; [congruence|].
    intros i j Hi Hj.
    assert (Hb : (i < length (parameters (Trainer.critic_target X s1)))%nat /\
                 (j < length (nth i (parameters (Trainer.critic_target X s1))
                                 []))%nat).
    { destruct (same_shape_entry_bounds _ _ i j Hs Hi Hj) as [B1 B2].
      rewrite <- Hc1 in B1, B2.
      apply (same_shape_entry_bounds _ _ i j (same_shape_sym _ _ Hs1));
        assumption. }
    destruct Hb as [Hi1 Hj1].
    pose proof (Hent2 i j Hi1 Hj1) as H2.
    rewrite Hcfg1, Hc1, (Hent1 i j Hi Hj) in H2.
    rewrite H2, polyak_distance. ring.
Qed.

Lemma softTargetUpdates_geometric_witness :
  exists self',
    softTargetUpdates 2 Stub.trainer = Some self' /\
    entry (parameters (Trainer.critic_target Stub.external self')) 1 0 - 3
    == qpow (1 - (1 # 100)) 2 * (4 - 3).
Proof.
  assert (Hs : same_shape (Trainer.critic_target Stub.external Stub.trainer)
                          (Trainer.critic Stub.external Stub.trainer))
    by (repeat constructor).
  destruct (softTargetUpdates_geometric Stub.external 2 Stub.trainer Hs)
    as (self' & E & _ & H).
  exists self'. split; [exact E|].
  apply (H 1%nat 0%nat); simpl; lia.
Defined.

(** ** More on [updateSLAC] *)

Ltac break_hyp H :=
  repeat match type of H with
         | context [match ?x with _ => _ end] => destruct x eqn:?
         end.

Lemma optimize_steps (X : External) (o o' : Trainer.Optimizer X) (loss : Net -> option Q)
    (net net' : Net) :
  Trainer.optimize X o loss net = (o', net') ->
  Trainer.opt_steps X o' = S (Trainer.opt_steps X o) /\
  Trainer.lr X o' = Trainer.lr X o.
Proof.
  unfold Trainer.optimize.
  destruct (adam X (Trainer.opt_state X o) (Trainer.lr X o) loss net).
  intros H; injection H as <- _. now split.
Qed.




(** An [updateSLAC] call that returns, with its intermediate results. *)
Lemma updateSLAC_run (X : External) (s s' : Trainer.t X)
    (eps1 eps2 eps3 : Noise X) (batch : Batch) (td : Vec)
    (losses : Q * Q * Q * Q) :
  Trainer.updateSLAC X s eps1 eps2 eps3 batch = Some (s', (td, losses)) ->
  let feature_ :=
    encoder X (Trainer.latent X s) (obs_vision batch) (obs_force batch) in
  let z_ :=
    sample_posterior X (Trainer.latent X s) eps1 feature_ (action_batch batch) in
  let sampled :=
    actor_sample X (Trainer.actor X s) eps2
      (snd (create_feature_actions X feature_ (action_batch batch))) in
  exists z next_z last_action target d1 d2 d,
    before_last_slot z_ = Some z /\
    last_slot z_ = Some next_z /\
    last_slot (action_batch batch) = Some last_action /\
    let next_q :=
      critic_forward X (Trainer.critic_target X s) next_z (fst sampled) in
    let curr_q := critic_forward X (Trainer.critic X s) z last_action in
    Trainer.target_q X s (reward_batch batch) (done_batch batch)
      (fst next_q) (snd next_q) (snd sampled) = Some target /\
    ew2 (fun q y => Qabs (q - y)) (fst curr_q) target = Some d1 /\
    ew2 (fun q y => Qabs (q - y)) (snd curr_q) target = Some d2 /\
    ew2 Qplus d1 d2 = Some d /\
    td = pointwise (Qmult (1 # 2)) d.
Proof.
  intros H feature_ z_ sampled.
  unfold Trainer.updateSLAC in H. bind_inv_as H obj Eobj.
  destruct obj as [[[z feature_action] target] critic_loss_fn].
  unfold Trainer.critic_objective, Trainer.processBatch in Eobj.
  simpl in Eobj. fold feature_ z_ in Eobj.
  bind_inv_as Eobj z0 Ez. bind_inv_as Eobj next_z Enz.
  subst sampled.
  destruct (create_feature_actions X feature_ (action_batch batch))
    as [fa nfa].
  simpl snd.
  destruct (actor_sample X (Trainer.actor X s) eps2 nfa)
    as [next_action next_log_pi].
  simpl fst; simpl snd.
  destruct (critic_forward X (Trainer.critic_target X s) next_z next_action)
    as [next_q1 next_q2] eqn:Eq.
  bind_inv_as Eobj tgt Et. bind_inv_as Eobj la Ela.
  injection Eobj as Hz Hfa Ht Hfn. subst z0 fa tgt critic_loss_fn.
  bind_inv_as H la' Ela'. assert (la' = la) as -> by congruence.
  bind_inv_as H cl Ecl.
  destruct (critic_forward X (Trainer.critic X s) z la)
    as [curr_q1 curr_q2] eqn:Ec.
  bind_inv_as H d1 Ed1. bind_inv_as H d2 Ed2. bind_inv_as H d Ed.
  exists z, next_z, la, target, d1, d2, d.
  rewrite Eq, Ec. cbn [fst snd].
  repeat (split; [assumption|]).
  unfold bind in H. break_hyp H; try discriminate H.
  now injection H as _ <- _.
Qed.

Lemma map2_Forall {A B C : Type} (P : A -> Prop) (P' : B -> Prop)
    (R : C -> Prop) (f : A -> B -> C) (a : list A) (b : list B) :
  (forall x y, P x -> P' y -> R (f x y)) ->
  Forall P a -> Forall P' b -> Forall R (map2 f a b).
Proof.
  intros Hf Ha. revert b. induction Ha as [|x a Hx _ IH]; intros b Hb; simpl;
    [constructor|].
  destruct Hb as [|y b Hy Hb]; constructor; auto.
Qed.

Lemma ew2_Forall (P P' R : Q -> Prop) (f : Q -> Q -> Q) (a b c : Vec) :
  (forall x y, P x -> P' y -> R (f x y)) ->
  Forall P a -> Forall P' b -> ew2 f a b = Some c -> Forall R c.
Proof.
  intros Hf Ha Hb. unfold ew2.
  destruct (length a =? length b)%nat.
  - intros H; injection H as <-. now apply map2_Forall with P P'.
  - destruct a as [|x [|x' a]].
    + destruct b as [|y [|y' b]]; intros H; try discriminate H.
      injection H as <-. constructor.
    + intros H; injection H as <-.
      apply (proj2 (Forall_map (f x) R b)).
      apply Forall_inv in Ha. eapply Forall_impl; [|exact Hb]. auto.
    + destruct b as [|y [|y' b]]; intros H; try discriminate H.
      injection H as <-.
      apply (proj2 (Forall_map (fun x0 => f x0 y) R (x :: x' :: a))).
      apply Forall_inv in Hb. eapply Forall_impl; [|exact Ha]. auto.
Qed.

Lemma Forall_True {A : Type} (l : list A) : Forall (fun _ => True) l.
Proof. induction l; constructor; auto. Qed.

(** The TD errors [updateSLAC] returns are never negative. *)
Theorem updateSLAC_td_error_nonneg (X : External) (s s' : Trainer.t X)
    (eps1 eps2 eps3 : Noise X) (batch : Batch) (td : Vec)
    (losses : Q * Q * Q * Q) :
  Trainer.updateSLAC X s eps1 eps2 eps3 batch = Some (s', (td, losses)) ->
  Forall (fun e => 0 <= e) td.
Proof.
  intros H.
  destruct (updateSLAC_run _ _ _ _ _ _ _ _ _ H)
    as (z & next_z & la & target & d1 & d2 & d
        & _ & _ & _ & _ & H1 & H2 & Hd & ->).
  assert (N1 : Forall (fun e => 0 <= e) d1).
  { eapply (ew2_Forall (fun _ => True) (fun _ => True)); try exact H1;
      auto using Forall_True. intros; apply Qabs_nonneg. }
  assert (N2 : Forall (fun e => 0 <= e) d2).
  { eapply (ew2_Forall (fun _ => True) (fun _ => True)); try exact H2;
      auto using Forall_True. intros; apply Qabs_nonneg. }
  assert (N : Forall (fun e => 0 <= e) d).
  { eapply (ew2_Forall (fun e => 0 <= e) (fun e => 0 <= e)); try exact Hd;
      auto. intros x y Hx Hy. lra. }
  unfold pointwise. apply Forall_map.
  eapply Forall_impl; [|exact N]. intros x Hx. simpl in Hx. lra.
Qed.

Lemma updateSLAC_td_error_nonneg_witness :
  exists s' td losses,
    Trainer.updateSLAC Stub.external Stub.trainer tt tt tt Stub.batch
    = Some (s', (td, losses)) /\
    td <> [] /\ Forall (fun e => 0 <= e) td.
Proof.
  destruct (Trainer.updateSLAC Stub.external Stub.trainer tt tt tt Stub.batch)
    as [[s' [td losses]]|] eqn:E; [|vm_compute in E; discriminate E].
  exists s', td, losses. split; [reflexivity|]. split.
  - vm_compute in E. injection E as _ <- _. discriminate.
  - exact (updateSLAC_td_error_nonneg _ _ _ _ _ _ _ _ _ E).
Defined.

Lemma before_last_slot_short {A : Type} (t : list (list A)) (w : list A) :
  In w t -> (length w < 2)%nat -> before_last_slot t = None.
Proof.
  induction t as [|w0 t IH]; simpl; [tauto|].
  intros [->|H] Hl.
  - destruct w as [|x [|y w]]; simpl in *; try lia; reflexivity.
  - rewrite (IH H Hl). now destruct (rev w0) as [|? [|? ?]].
Qed.

Lemma target_q_Some (X : External) (s : Trainer.t X)
    (rewards dones : list Vec) (q1 q2 lp target : Vec) :
  Trainer.target_q X s rewards dones q1 q2 lp = Some target ->
  exists r d, last_slot rewards = Some r /\ last_slot dones = Some d.
Proof.
  unfold Trainer.target_q. intros H.
  bind_inv_as H m Em. bind_inv_as H nq Enq.
  bind_inv_as H r Er. bind_inv_as H d Ed. eauto.
Qed.

(** [updateSLAC] needs two time steps of latent state and one time step of
    action, reward and done flag in every sample: it raises when some
    sample has a shorter sequence. *)
Theorem updateSLAC_needs_sequences (X : External) (s : Trainer.t X)
    (eps1 eps2 eps3 : Noise X) (batch : Batch) :
  let z_ :=
    sample_posterior X (Trainer.latent X s) eps1
      (encoder X (Trainer.latent X s) (obs_vision batch) (obs_force batch))
      (action_batch batch) in
  (exists w, In w z_ /\ (length w < 2)%nat) \/
  In [] (action_batch batch) \/ In [] (reward_batch batch) \/
  In [] (done_batch batch) ->
  Trainer.updateSLAC X s eps1 eps2 eps3 batch = None.
Proof.
  intros z_ Hshort.
  destruct (Trainer.updateSLAC X s eps1 eps2 eps3 batch)
    as [[s' [td losses]]|] eqn:E; [exfalso | reflexivity].
  destruct (updateSLAC_run _ _ _ _ _ _ _ _ _ E)
    as (z & next_z & la & target & d1 & d2 & d
        & Hz & _ & Hla & Ht & _).
  apply target_q_Some in Ht as (r & dn & Hr & Hd).
  destruct Hshort as [(w & Hw & Hl)|[H|[H|H]]].
  - fold z_ in Hz. rewrite (before_last_slot_short _ _ Hw Hl) in Hz.
    discriminate Hz.
  - rewrite (last_slot_empty_window _ H) in Hla. discriminate Hla.
  - rewrite (last_slot_empty_window _ H) in Hr. discriminate Hr.
  - rewrite (last_slot_empty_window _ H) in Hd. discriminate Hd.
Qed.

Lemma updateSLAC_needs_sequences_witness :
  Trainer.updateSLAC Stub.external Stub.trainer tt tt tt
    {| obs_vision := [[ [[[1]]] ]];
       obs_force := [[ [1; 1] ]];
       action_batch := [[ [0; 0; 0; 0; 0] ]];
       reward_batch := [[1]];
       done_batch := [[0]] |} = None.
Proof.
  apply updateSLAC_needs_sequences.
  left. exists [[0]]. split; [now left | simpl; lia].
Defined.

(** ** Counters, pauses and checkpoints of [continuousUpdateWeights] *)

Lemma updateLatent_loop_part (X : External) (s s' : Trainer.t X)
    (eps : Noise X) (b : Batch) (ev : Trainer.Event) (l : Q) :
  Trainer.updateLatent X s eps b = (s', ev, l) ->
  loop_part s' = loop_part s /\
  exists k i r a c, ev = Trainer.LogLatentTerms k i r a c.
Proof.
  unfold Trainer.updateLatent, Trainer.optimize.
  destruct (calculate_loss X (Trainer.latent X s) eps b
              (max_force (Trainer.config X s))) as [[[[k i] r] a] c].
  destruct (adam X _ _ _ _) as [st net].
  intros H; injection H as <- <- _. split; [reflexivity | eauto 6].
Qed.

Lemma updateLatentAlign_loop_part (X : External) (s s' : Trainer.t X)
    (eps : Noise X) (b : Batch) (l : Q) :
  Trainer.updateLatentAlign X s eps b = (s', l) -> loop_part s' = loop_part s.
Proof.
  unfold Trainer.updateLatentAlign, Trainer.optimize.
  destruct (adam X _ _ _ _) as [st net].
  intros H; injection H as <- _. reflexivity.
Qed.

Lemma updateSLAC_loop_part (X : External) (s s' : Trainer.t X)
    (e1 e2 e3 : Noise X) (b : Batch) (r : Vec * (Q * Q * Q * Q)) :
  Trainer.updateSLAC X s e1 e2 e3 b = Some (s', r) ->
  loop_part s' = loop_part s.
Proof.
  unfold Trainer.updateSLAC, bind. intros H.
  break_hyp H; try discriminate H. injection H as <- _. reflexivity.
Qed.

Lemma softTargetUpdate_loop_part (X : External) (s s' : Trainer.t X) :
  Trainer.softTargetUpdate X s = Some s' -> loop_part s' = loop_part s.
Proof.
  unfold Trainer.softTargetUpdate, bind. intros H.
  break_hyp H; try discriminate H. injection H as <-. reflexivity.
Qed.

(** Case analysis on one statement of the method, with the facts about the
    states the update methods return. *)
Ltac break_goal :=
  repeat match goal with
         | |- context [match ?x with _ => _ end] => destruct x eqn:?
         end.

Ltac loop_facts :=
  repeat match goal with
         | H : Trainer.updateLatent _ _ _ _ = (_, ?e, _) |- _ =>
             let F := fresh "F" in
             destruct (updateLatent_loop_part _ _ _ _ _ _ _ H)
               as (F & ? & ? & ? & ? & ? & ->);
             clear H; unfold loop_part in F;
             injection F as ? ? ?
         | H : Trainer.updateLatentAlign _ _ _ _ = _ |- _ =>
             apply updateLatentAlign_loop_part in H;
             unfold loop_part in H; injection H as ? ? ?
         | H : Trainer.updateSLAC _ _ _ _ _ _ = _ |- _ =>
             apply updateSLAC_loop_part in H;
             unfold loop_part in H; injection H as ? ? ?
         | H : Trainer.softTargetUpdate _ _ = _ |- _ =>
             apply softTargetUpdate_loop_part in H;
             unfold loop_part in H; injection H as ? ? ?
         | H : (_ && _)%bool = true |- _ =>
             apply andb_prop in H; destruct H
         | H : (_ <? _)%nat = true |- _ => apply Nat.ltb_lt in H
         | H : (_ <? _)%nat = false |- _ => apply Nat.ltb_ge in H
         | H : (_ =? _)%nat = true |- _ => apply Nat.eqb_eq in H
         end.

Ltac unfold_machine :=
  unfold Trainer.step, Trainer.do_updateLatent, Trainer.do_updateLatentAlign,
    Trainer.cycles_completed, Trainer.cycles_started,
    weights_published, checkpoints_saved,
    Trainer.positive_and_divides, Trainer.divides in *;
  cbn [Trainer.pc Trainer.self Trainer.batch Trainer.trace Trainer.loss
       Trainer.latent_loss] in *.

(** The counters along a run: an invariant of every statement. *)
Lemma step_counters (X : External) (s0 : Trainer.t X)
    (i : Trainer.Input X) (m : Trainer.Machine X) :
  let cfg := Trainer.config X s0 in
  let inv (m : Trainer.Machine X) :=
    let s := Trainer.self X m in
    Trainer.config X s = cfg /\
    (Trainer.pre_training_step X s0 <= Trainer.pre_training_step X s
     <= Nat.max (Trainer.pre_training_step X s0) (pretraining_steps cfg))%nat /\
    (Trainer.training_step X s0 <= Trainer.training_step X s
     <= Nat.max (Trainer.training_step X s0) (training_steps cfg))%nat /\
    (pre_body (Trainer.pc X m) = true ->
     (Trainer.pre_training_step X s < pretraining_steps cfg)%nat) /\
    (awaiting_incr (Trainer.pc X m) = true ->
     (Trainer.training_step X s < training_steps cfg)%nat) in
  inv m -> inv (Trainer.step X i m).
Proof.
  intros cfg inv. subst inv. cbv beta.
  destruct m as [p s b ll l tr].
  cbn [Trainer.pc Trainer.self]. intros (Hc & Hpre & Hts & Hb & Ha).
  unfold_machine. rewrite Hc.
  destruct p; cbn in Hb, Ha; break_goal; cbn; loop_facts;
    repeat split; intros; try discriminate; try congruence;
    try (specialize (Hb eq_refl)); try (specialize (Ha eq_refl)); try lia.
Qed.

Lemma run_invariant (X : External) (ok : Trainer.Input X -> Prop)
    (inv : Trainer.Machine X -> Prop) :
  (forall i m, ok i -> inv m -> inv (Trainer.step X i m)) ->
  forall inputs m, Forall ok inputs -> inv m -> inv (Trainer.run X inputs m).
Proof.
  intros Hstep inputs. induction inputs as [|i inputs IH]; intros m Hok Hm;
    [exact Hm|].
  inversion Hok; subst. apply IH; [assumption|]. now apply Hstep.
Qed.

(** The two step counters never decrease and never pass their targets:
    along every run, [pre_training_step] stays between its value at the
    call and the larger of that value and [pretraining_steps], and
    [training_step] between its value at the call and the larger of that
    value and [training_steps]; the configuration is never replaced. *)
Theorem counters_bounded (X : External) (s : Trainer.t X)
    (inputs : list (Trainer.Input X)) :
  let cfg := Trainer.config X s in
  let s' := Trainer.self X (Trainer.run X inputs (Trainer.enter X s)) in
  Trainer.config X s' = cfg /\
  (Trainer.pre_training_step X s <= Trainer.pre_training_step X s'
   <= Nat.max (Trainer.pre_training_step X s) (pretraining_steps cfg))%nat /\
  (Trainer.training_step X s <= Trainer.training_step X s'
   <= Nat.max (Trainer.training_step X s) (training_steps cfg))%nat.
Proof.
  intros cfg s'. subst s'.
  pose proof (run_invariant X (fun _ => True) _
                (fun i m _ => step_counters X s i m) inputs
                (Trainer.enter X s) (Forall_True _)) as H.
  cbv beta zeta in H. destruct H as (Hc & Hp & Ht & _).
  - cbn. repeat split; try reflexivity; try discriminate; lia.
  - auto.
Qed.

(** Without a terminate signal a loop is left only when its target is
    reached: an invariant of every statement. *)
Lemma step_targets (X : External) (cfg : Config)
    (i : Trainer.Input X) (m : Trainer.Machine X) :
  let inv (m : Trainer.Machine X) :=
    let s := Trainer.self X m in
    Trainer.config X s = cfg /\
    (past_pretraining (Trainer.pc X m) = true ->
     (pretraining_steps cfg <= Trainer.pre_training_step X s)%nat) /\
    (Trainer.pc X m = Trainer.Done ->
     (training_steps cfg <= Trainer.training_step X s)%nat) in
  Trainer.in_terminate X i = false -> inv m -> inv (Trainer.step X i m).
Proof.
  intros inv. subst inv. cbv beta.
  destruct m as [p s b ll l tr].
  cbn [Trainer.pc Trainer.self]. intros Hi (Hc & Hp & Hd).
  unfold_machine. rewrite Hc, Hi. rewrite !andb_true_r.
  destruct p; cbn in Hp, Hd; break_goal; cbn; loop_facts;
    repeat split; intros; try discriminate; try congruence;
    try (specialize (Hp eq_refl)); try (specialize (Hd eq_refl)); try lia.
Qed.

(** Without a terminate signal the loops run to their targets: once the
    pretraining loop is left, [pre_training_step] is the larger of its
    value at the call and [pretraining_steps]; once the method has
    returned, [training_step] is the larger of its value at the call and
    [training_steps]. *)
Theorem exit_reaches_targets (X : External) (s : Trainer.t X)
    (inputs : list (Trainer.Input X)) :
  never_terminate inputs ->
  let cfg := Trainer.config X s in
  let m := Trainer.run X inputs (Trainer.enter X s) in
  (past_pretraining (Trainer.pc X m) = true ->
   Trainer.pre_training_step X (Trainer.self X m)
   = Nat.max (Trainer.pre_training_step X s) (pretraining_steps cfg)) /\
  (Trainer.pc X m = Trainer.Done ->
   Trainer.training_step X (Trainer.self X m)
   = Nat.max (Trainer.training_step X s) (training_steps cfg)).
Proof.
  intros Hn cfg m. subst m.
  pose proof (run_invariant X (fun _ => True) _
                (fun i m _ => step_counters X s i m) inputs
                (Trainer.enter X s) (Forall_True _)) as H.
  cbv beta zeta in H. destruct H as (_ & Hp & Ht & _).
  { cbn. repeat split; try reflexivity; try discriminate; lia. }
  pose proof (run_invariant X _ _ (step_targets X cfg) inputs
                (Trainer.enter X s) Hn) as H.
  cbv beta zeta in H. destruct H as (_ & Hp' & Ht').
  { cbn. repeat split; try reflexivity; discriminate. }
  fold cfg in Hp, Ht.
  split; intros Hpc; [specialize (Hp' Hpc) | specialize (Ht' Hpc)]; lia.
Qed.

Lemma exit_reaches_targets_witness :
  let m := Trainer.run Stub.external (repeat (Stub.input false false) 26)
             (Trainer.enter Stub.external Stub.trainer) in
  Trainer.pc Stub.external m = Trainer.Done /\
  Trainer.pre_training_step Stub.external (Trainer.self Stub.external m)
  = 1%nat /\
  Trainer.training_step Stub.external (Trainer.self Stub.external m) = 1%nat.
Proof.
  intros m.
  assert (Hn : never_terminate (repeat (Stub.input false false) 26))
    by (repeat constructor).
  destruct (exit_reaches_targets Stub.external Stub.trainer _ Hn) as [Hp Ht].
  assert (Ed : Trainer.pc Stub.external m = Trainer.Done) by reflexivity.
  split; [exact Ed|]. split.
  - apply Hp. fold m. now rewrite Ed.
  - now apply Ht.
Defined.

(** What is published, as an invariant of every statement. *)
Lemma step_published (X : External) (cfg : Config)
    (i : Trainer.Input X) (m : Trainer.Machine X) :
  let inv (m : Trainer.Machine X) :=
    let s := Trainer.self X m in
    Trainer.config X s = cfg /\
    (pre_body (Trainer.pc X m) = true ->
     (Trainer.pre_training_step X s < pretraining_steps cfg)%nat) /\
    (after_incr (Trainer.pc X m) = true ->
     (0 < Trainer.training_step X s)%nat) /\
    Forall (published_ok cfg) (Trainer.trace X m) in
  inv m -> inv (Trainer.step X i m).
Proof.
  intros inv. subst inv. cbv beta.
  destruct m as [p s b ll l tr].
  cbn [Trainer.pc Trainer.self Trainer.trace]. intros (Hc & Hb & Ha & Hf).
  unfold_machine. rewrite Hc.
  destruct p; cbn in Hb, Ha; break_goal; cbn; loop_facts;
    try (specialize (Hb eq_refl)); try (specialize (Ha eq_refl));
    try match goal with
        | H : (if (0 <? ?t)%nat then _ else _) = Some _ |- _ =>
            let E := fresh "E" in
            assert (E : (0 <? t)%nat = true) by (now apply Nat.ltb_lt);
            rewrite E in H;
            destruct (eval_interval cfg) eqn:?;
            [discriminate H | injection H as <-]
        end;
    repeat split; intros; try discriminate; try congruence;
    repeat (apply Forall_cons; [cbn|]); auto; try lia;
    repeat split; try lia; try congruence;
    match goal with
    | H : eval_interval _ = S _ |- _ => rewrite H; reflexivity
    end.
Qed.

(** Every counter the trainer publishes to the shared storage: a published
    pretraining step is below [pretraining_steps] (it is published before
    it is incremented, so the target itself is never published); a
    published policy step is positive (it is published after it is
    incremented), and its [run_eval_interval] flag tells whether
    [eval_interval] divides it. *)
Theorem published_counters (X : External) (s : Trainer.t X)
    (inputs : list (Trainer.Input X)) (e : Trainer.Event) :
  In e (Trainer.trace X (Trainer.run X inputs (Trainer.enter X s))) ->
  published_ok (Trainer.config X s) e.
Proof.
  pose proof (run_invariant X (fun _ => True) _
                (fun i m _ => step_published X (Trainer.config X s) i m)
                inputs (Trainer.enter X s) (Forall_True _)) as H.
  cbv beta zeta in H. destruct H as (_ & _ & _ & Hf).
  { cbn. repeat split; try discriminate. constructor. }
  rewrite Forall_forall in Hf. apply Hf.
Qed.

Lemma published_counters_witness :
  published_ok Stub.cfg (Trainer.SetInfoPretrainingStep 0) /\
  published_ok Stub.cfg (Trainer.SetInfoTrainingStep 1 false).
Proof.
  split.
  - apply (published_counters Stub.external Stub.trainer
             (repeat (Stub.input false false) 7)).
    vm_compute. auto.
  - apply (published_counters Stub.external Stub.trainer
             (repeat (Stub.input false false) 24)).
    vm_compute. auto.
Defined.

(** While the pause flag is read as set (and no terminate signal comes),
    the policy loop only polls and sleeps: from a point of the poll with
    steps left to do, the trainer's state never changes, no update cycle
    starts, and the method does not return. *)
Theorem paused_loop_spins (X : External) (m : Trainer.Machine X)
    (inputs : list (Trainer.Input X)) :
  paused inputs ->
  idle (Trainer.pc X m) = true ->
  (Trainer.training_step X (Trainer.self X m)
   < training_steps (Trainer.config X (Trainer.self X m)))%nat ->
  let f := Trainer.run X inputs m in
  Trainer.self X f = Trainer.self X m /\
  idle (Trainer.pc X f) = true /\
  Trainer.halted (Trainer.pc X f) = false /\
  Trainer.cycles_started X f = Trainer.cycles_started X m /\
  Trainer.cycles_completed X f = Trainer.cycles_completed X m.
Proof.
  intros Hp Hi Ht f. subst f.
  assert (Hstep : forall i m',
            (Trainer.in_terminate X i = false /\ Trainer.in_pause X i = true) ->
            (Trainer.self X m' = Trainer.self X m /\
             idle (Trainer.pc X m') = true /\
             Trainer.cycles_started X m' = Trainer.cycles_started X m /\
             Trainer.cycles_completed X m' = Trainer.cycles_completed X m) ->
            (Trainer.self X (Trainer.step X i m') = Trainer.self X m /\
             idle (Trainer.pc X (Trainer.step X i m')) = true /\
             Trainer.cycles_started X (Trainer.step X i m')
             = Trainer.cycles_started X m /\
             Trainer.cycles_completed X (Trainer.step X i m')
             = Trainer.cycles_completed X m)).
  { intros i [p s b ll l tr] [Hterm Hpause].
    cbn [Trainer.pc Trainer.self]. intros (Hs & Hidle & Hst & Hco).
    subst s. unfold_machine. rewrite Hterm, Hpause.
    apply Nat.ltb_lt in Ht. rewrite Ht.
    destruct p; cbn in Hidle; try discriminate Hidle; cbn;
      repeat split; assumption. }
  pose proof (run_invariant X _ _ Hstep inputs m Hp) as H.
  destruct H as (Hs & Hidle & Hst & Hco); [repeat split; assumption|].
  repeat split; try assumption.
  destruct (Trainer.pc X (Trainer.run X inputs m)); cbn in Hidle |- *;
    congruence.
Qed.

Lemma paused_loop_spins_witness :
  let m := Trainer.run Stub.external (repeat (Stub.input false false) 11)
             (Trainer.enter Stub.external Stub.trainer) in
  let f := Trainer.run Stub.external (repeat (Stub.input false true) 100) m in
  Trainer.pc Stub.external m = Trainer.TrTop /\
  Trainer.self Stub.external f = Trainer.self Stub.external m /\
  Trainer.halted (Trainer.pc Stub.external f) = false.
Proof.
  intros m f. split; [reflexivity|].
  assert (Hp : paused (repeat (Stub.input false true) 100)).
  { apply Forall_forall. intros i Hi. apply repeat_spec in Hi as ->.
    split; reflexivity. }
  destruct (paused_loop_spins Stub.external m _ Hp) as (Hs & _ & Hh & _).
  - reflexivity.
  - vm_compute. lia.
  - split; assumption.
Defined.

Ltac split_interval :=
  repeat match goal with
         | H : (if (0 <? ?t)%nat then _ else _) = _, P : (0 < ?t)%nat |- _ =>
             let E := fresh "E" in
             assert (E : (0 <? t)%nat = true) by (now apply Nat.ltb_lt);
             rewrite E in H; clear E
         | H : match ?v with 0%nat => None | S _ => _ end = _ |- _ =>
             destruct v eqn:?; [try discriminate H | try injection H as H]
         end.

(** With an interval of 0 no update cycle gets to its end: an invariant of
    every statement. *)
Lemma step_zero_interval (X : External) (cfg : Config)
    (i : Trainer.Input X) (m : Trainer.Machine X) :
  lr_decay_interval cfg = 0%nat \/ checkpoint_interval cfg = 0%nat \/
  eval_interval cfg = 0%nat ->
  let inv (m : Trainer.Machine X) :=
    let s := Trainer.self X m in
    Trainer.config X s = cfg /\
    Trainer.cycles_completed X m = 0%nat /\
    (after_incr (Trainer.pc X m) = true ->
     (0 < Trainer.training_step X s)%nat) /\
    intervals_passed cfg (Trainer.pc X m) in
  inv m -> inv (Trainer.step X i m).
Proof.
  intros Hz inv. subst inv. cbv beta.
  destruct m as [p s b ll l tr].
  cbn [Trainer.pc Trainer.self].
  intros (Hc & Hco & Ha & Hal).
  unfold_machine. rewrite Hc.
  destruct p; cbn in Ha, Hal; break_goal; cbn; loop_facts; cbn;
    try (specialize (Ha eq_refl)); split_interval;
    repeat split; intros; try discriminate; try congruence; try lia.
Qed.

(** An interval of 0 is fatal: when [lr_decay_interval],
    [checkpoint_interval] or [eval_interval] is 0, no run ever completes an
    update cycle (the first cycle raises a division by zero, after its
    gradient updates). *)
Theorem zero_interval_completes_no_cycle (X : External) (s : Trainer.t X)
    (inputs : list (Trainer.Input X)) :
  let cfg := Trainer.config X s in
  lr_decay_interval cfg = 0%nat \/ checkpoint_interval cfg = 0%nat \/
  eval_interval cfg = 0%nat ->
  Trainer.cycles_completed X (Trainer.run X inputs (Trainer.enter X s))
  = 0%nat.
Proof.
  intros cfg Hz.
  pose proof (run_invariant X (fun _ => True) _
                (fun i m _ => step_zero_interval X cfg i m Hz)
                inputs (Trainer.enter X s) (Forall_True _)) as H.
  cbv beta zeta in H. destruct H as (_ & Hco & _).
  { cbn. repeat split; try reflexivity; discriminate. }
  exact Hco.
Qed.

Lemma zero_interval_completes_no_cycle_witness :
  let cfg0 :=
    {| dpos := 1 # 20; drot := 1 # 4; action_dim := 5; seq_len := 2;
       vision_channels := 1; vision_size := 1; force_dim := 2;
       proprio_dim := 1; num_data_gen_envs := 1; max_force := 10;
       discount := 9 # 10; tau := 1 # 100; init_temp := 1 # 100;
       pretraining_steps := 0; training_steps := 3;
       lr_decay := 95 # 100; lr_decay_interval := 0;
       checkpoint_interval := 1; eval_interval := 500;
       save_model := true |} in
  let s0 :=
    Trainer.Build_t Stub.external cfg0 (1 # 100) (- (5)) 0 Stub.optimizer
      (Stub.net 1) (Stub.net 2) (Stub.net 3) (Stub.net 4) 0 0
      Stub.optimizer Stub.optimizer Stub.optimizer in
  let m := Trainer.run Stub.external (repeat (Stub.input false false) 40)
             (Trainer.enter Stub.external s0) in
  Trainer.pc Stub.external m = Trainer.Crashed /\
  Trainer.training_step Stub.external (Trainer.self Stub.external m) = 1%nat /\
  Trainer.cycles_completed Stub.external m = 0%nat.
Proof.
  intros cfg0 s0 m. split; [reflexivity|]. split; [reflexivity|].
  apply (zero_interval_completes_no_cycle Stub.external s0).
  left. reflexivity.
Defined.

(** Checkpoints at an interval of 1: an invariant of every statement. *)
Lemma step_checkpoints (X : External) (cfg : Config)
    (i : Trainer.Input X) (m : Trainer.Machine X) :
  checkpoint_interval cfg = 1%nat ->
  let inv (m : Trainer.Machine X) :=
    Trainer.config X (Trainer.self X m) = cfg /\
    (Trainer.pc X m <> Trainer.Crashed ->
     weights_published m
     = (Trainer.cycles_completed X m + past_checkpoint (Trainer.pc X m))%nat) /\
    checkpoints_saved m
    = (if save_model cfg then weights_published m else 0%nat) in
  inv m -> inv (Trainer.step X i m).
Proof.
  intros Hk inv. subst inv. cbv beta.
  destruct m as [p s b ll l tr].
  cbn [Trainer.pc Trainer.self].
  intros (Hc & Hw & Hs).
  unfold_machine. rewrite Hc, Hk.
  destruct (save_model cfg) eqn:Es;
    destruct p; cbn [past_checkpoint] in Hw; break_goal; cbn; loop_facts; cbn;
    repeat split; intros; try discriminate; try congruence;
    try (specialize (Hw ltac:(discriminate))); try lia.
Qed.

(** With [checkpoint_interval = 1] every update cycle publishes one
    checkpoint: at every point of a run where no exception was raised, the
    weights were published once per completed cycle (once more between the
    checkpoint statement and the end of a cycle); and at every point they
    were saved to disk as often as published when [save_model] is set,
    never otherwise. *)
Theorem checkpoint_every_cycle (X : External) (s : Trainer.t X)
    (inputs : list (Trainer.Input X)) :
  let cfg := Trainer.config X s in
  checkpoint_interval cfg = 1%nat ->
  let m := Trainer.run X inputs (Trainer.enter X s) in
  (Trainer.pc X m <> Trainer.Crashed ->
   weights_published m
   = (Trainer.cycles_completed X m + past_checkpoint (Trainer.pc X m))%nat) /\
  checkpoints_saved m = (if save_model cfg then weights_published m else 0%nat).
Proof.
  intros cfg Hk m. subst m.
  pose proof (run_invariant X (fun _ => True) _
                (fun i m _ => step_checkpoints X cfg i m Hk)
                inputs (Trainer.enter X s) (Forall_True _)) as H.
  cbv beta zeta in H. destruct H as (_ & Hw & Hs).
  { cbn. repeat split. now destruct (save_model cfg). }
  split; assumption.
Qed.

Lemma checkpoint_every_cycle_witness :
  let m := Trainer.run Stub.external (repeat (Stub.input false false) 26)
             (Trainer.enter Stub.external Stub.trainer) in
  Trainer.pc Stub.external m = Trainer.Done /\
  Trainer.cycles_completed Stub.external m = 1%nat /\
  weights_published m = 1%nat /\ checkpoints_saved m = 1%nat.
Proof.
  intros m.
  destruct (checkpoint_every_cycle Stub.external Stub.trainer
              (repeat (Stub.input false false) 26) eq_refl) as [Hw Hs].
  fold m in Hw, Hs.
  assert (Ed : Trainer.pc Stub.external m = Trainer.Done) by reflexivity.
  assert (Ec : Trainer.cycles_completed Stub.external m = 1%nat)
    by reflexivity.
  split; [exact Ed|]. split; [exact Ec|].
  assert (Hw' : weights_published m = 1%nat).
  { rewrite Hw by (rewrite Ed; discriminate). now rewrite Ed, Ec. }
  split; [exact Hw'|]. rewrite Hs. exact Hw'.
Defined.

(** ** The data-generation loops *)

Lemma concat_repeat_comm {A : Type} (p : list A) (k : nat) :
  concat (repeat p k) ++ p = p ++ concat (repeat p k).
Proof.
  induction k as [|k IH]; simpl; [now rewrite app_nil_r|].
  now rewrite <- app_assoc, IH.
Qed.

Lemma collect_spec (expert : bool) (target : nat) (waits : list nat) :
  forall current calls,
    match Episodes.collect expert target current waits calls with
    | Episodes.Returned total cs =>
        exists k,
          (k <= length waits)%nat /\
          total = (current + list_sum (firstn k waits))%nat /\
          (target <= total)%nat /\
          (forall j, (j < k)%nat ->
             (current + list_sum (firstn j waits) < target)%nat) /\
          cs = concat (repeat [Episodes.StepEnvsWait expert;
                               Episodes.StepEnvsAsync expert] k) ++ calls
    | Episodes.Running total cs =>
        total = (current + list_sum waits)%nat /\
        (total < target)%nat /\
        cs = concat (repeat [Episodes.StepEnvsWait expert;
                             Episodes.StepEnvsAsync expert] (length waits))
             ++ calls
    end.
Proof.
  induction waits as [|c waits IH]; intros current calls; simpl.
  - destruct (current <? target)%nat eqn:E.
    + apply Nat.ltb_lt in E. repeat split; lia.
    + apply Nat.ltb_ge in E. exists 0%nat. simpl.
      repeat split; intros; lia.
  - destruct (current <? target)%nat eqn:E.
    + apply Nat.ltb_lt in E.
      specialize (IH (current + c)%nat
                     (Episodes.StepEnvsWait expert
                      :: Episodes.StepEnvsAsync expert :: calls)).
      destruct (Episodes.collect expert target (current + c) waits _)
        as [total cs|total cs].
      * destruct IH as (k & Hk & Ht & Hge & Hlt & Hcs).
        exists (S k). simpl. repeat split; try lia.
        -- intros [|j] Hj; simpl; [lia|]. specialize (Hlt j). lia.
        -- rewrite Hcs.
           change (Episodes.StepEnvsWait expert
                   :: Episodes.StepEnvsAsync expert :: calls)
             with ([Episodes.StepEnvsWait expert;
                    Episodes.StepEnvsAsync expert] ++ calls).
           rewrite app_assoc, concat_repeat_comm. reflexivity.
      * destruct IH as (Ht & Hlt & Hcs). repeat split; try lia.
        rewrite Hcs.
        change (Episodes.StepEnvsWait expert
                :: Episodes.StepEnvsAsync expert :: calls)
          with ([Episodes.StepEnvsWait expert;
                 Episodes.StepEnvsAsync expert] ++ calls).
        rewrite app_assoc, concat_repeat_comm. reflexivity.
    + apply Nat.ltb_ge in E. exists 0%nat. simpl.
      repeat split; intros; lia.
Qed.

(** [generateData] and [generateExpertData] count completed episodes, not
    steps.  Given the numbers of completed episodes the successive
    [stepEnvsWait] calls return: the method returns after the first
    iteration at which their sum reaches the target, with that sum, having
    reset the environments once and then issued one [stepEnvsAsync] and one
    [stepEnvsWait] per iteration; as long as the sum stays below the
    target it keeps looping.  With a target of 0 it only resets. *)
Theorem generateData_counts_episodes (target : nat) (waits : list nat) :
  (match Episodes.generateData target waits with
   | Episodes.Returned total calls =>
       exists k, Episodes.returns_after target waits k total /\
                 calls = Episodes.calls_of false k
   | Episodes.Running total calls =>
       total = list_sum waits /\ (total < target)%nat /\
       calls = Episodes.calls_of false (length waits)
   end) /\
  (match Episodes.generateExpertData target waits with
   | Episodes.Returned total calls =>
       exists k, Episodes.returns_after target waits k total /\
                 calls = Episodes.calls_of true k
   | Episodes.Running total calls =>
       total = list_sum waits /\ (total < target)%nat /\
       calls = Episodes.calls_of true (length waits)
   end) /\
  Episodes.generateData 0 waits
  = Episodes.Returned 0 [Episodes.ResetEnvs false].
Proof.
  split; [|split].
  - unfold Episodes.generateData.
    pose proof (collect_spec false target waits 0%nat
                  [Episodes.ResetEnvs false]) as H.
    destruct (Episodes.collect false target 0 waits _) as [total cs|total cs].
    + destruct H as (k & Hk & Ht & Hge & Hlt & Hcs).
      exists k. split; [|exact Hcs]. repeat split; try assumption.
    + exact H.
  - unfold Episodes.generateExpertData.
    pose proof (collect_spec true target waits 0%nat
                  [Episodes.ResetEnvs true]) as H.
    destruct (Episodes.collect true target 0 waits _) as [total cs|total cs].
    + destruct H as (k & Hk & Ht & Hge & Hlt & Hcs).
      exists k. split; [|exact Hcs]. repeat split; try assumption.
    + exact H.
  - unfold Episodes.generateData. now destruct waits.
Qed.

(** ** Optimiser steps per batch *)

Lemma updateLatent_account (X : External) (s s' : Trainer.t X)
    (eps : Noise X) (b : Batch) (ev : Trainer.Event) (l : Q) :
  Trainer.updateLatent X s eps b = (s', ev, l) ->
  account s'
  = (S (Trainer.opt_steps X (Trainer.latent_optimizer X s)),
     Trainer.opt_steps X (Trainer.critic_optimizer X s),
     Trainer.opt_steps X (Trainer.actor_optimizer X s),
     Trainer.opt_steps X (Trainer.alpha_optimizer X s),
     Trainer.pre_training_step X s, Trainer.training_step X s).
Proof.
  unfold Trainer.updateLatent, Trainer.optimize.
  destruct (calculate_loss X (Trainer.latent X s) eps b
              (max_force (Trainer.config X s))) as [[[[k i] r] a] c].
  destruct (adam X _ _ _ _) as [st net].
  intros H; injection H as <- _ _. reflexivity.
Qed.

Lemma updateLatentAlign_account (X : External) (s s' : Trainer.t X)
    (eps : Noise X) (b : Batch) (l : Q) :
  Trainer.updateLatentAlign X s eps b = (s', l) ->
  account s'
  = (S (Trainer.opt_steps X (Trainer.latent_optimizer X s)),
     Trainer.opt_steps X (Trainer.critic_optimizer X s),
     Trainer.opt_steps X (Trainer.actor_optimizer X s),
     Trainer.opt_steps X (Trainer.alpha_optimizer X s),
     Trainer.pre_training_step X s, Trainer.training_step X s).
Proof.
  unfold Trainer.updateLatentAlign, Trainer.optimize.
  destruct (adam X _ _ _ _) as [st net].
  intros H; injection H as <- _. reflexivity.
Qed.

Lemma updateSLAC_account (X : External) (s s' : Trainer.t X)
    (e1 e2 e3 : Noise X) (b : Batch) (r : Vec * (Q * Q * Q * Q)) :
  Trainer.updateSLAC X s e1 e2 e3 b = Some (s', r) ->
  account s'
  = (Trainer.opt_steps X (Trainer.latent_optimizer X s),
     S (Trainer.opt_steps X (Trainer.critic_optimizer X s)),
     S (Trainer.opt_steps X (Trainer.actor_optimizer X s)),
     S (Trainer.opt_steps X (Trainer.alpha_optimizer X s)),
     Trainer.pre_training_step X s, Trainer.training_step X s).
Proof.
  unfold Trainer.updateSLAC, bind. intros H.
  break_hyp H; try discriminate H.
  injection H as <- _.
  repeat match goal with
         | E : Trainer.optimize _ _ _ _ = _ |- _ =>
             apply optimize_steps in E; destruct E
         end.
  unfold account. simpl in *. congruence.
Qed.

Lemma softTargetUpdate_account (X : External) (s s' : Trainer.t X) :
  Trainer.softTargetUpdate X s = Some s' -> account s' = account s.
Proof.
  unfold Trainer.softTargetUpdate, bind. intros H.
  break_hyp H; try discriminate H. injection H as <-. reflexivity.
Qed.

Ltac account_facts :=
  repeat match goal with
         | H : Trainer.updateLatent _ _ _ _ = _ |- _ =>
             apply updateLatent_account in H
         | H : Trainer.updateLatentAlign _ _ _ _ = _ |- _ =>
             apply updateLatentAlign_account in H
         | H : Trainer.updateSLAC _ _ _ _ _ _ = _ |- _ =>
             apply updateSLAC_account in H
         | H : Trainer.softTargetUpdate _ _ = _ |- _ =>
             apply softTargetUpdate_account in H
         | H : account _ = _ |- _ =>
             unfold account in H; injection H as ? ? ? ? ? ?
         end.

(** The bookkeeping of optimiser steps: an invariant of every statement. *)
Lemma step_account (X : External) (s0 : Trainer.t X)
    (i : Trainer.Input X) (m : Trainer.Machine X) :
  let inv (m : Trainer.Machine X) :=
    let s := Trainer.self X m in
    let p := Trainer.pc X m in
    p <> Trainer.Crashed ->
    (Trainer.opt_steps X (Trainer.latent_optimizer X s)
     + 2 * Trainer.pre_training_step X s0 + 2 * Trainer.training_step X s0
     = Trainer.opt_steps X (Trainer.latent_optimizer X s0)
       + 2 * Trainer.pre_training_step X s + 2 * Trainer.training_step X s
       + latent_steps_in_flight p)%nat /\
    (Trainer.opt_steps X (Trainer.critic_optimizer X s)
     + Trainer.training_step X s0
     = Trainer.opt_steps X (Trainer.critic_optimizer X s0)
       + Trainer.training_step X s + slac_steps_in_flight p)%nat /\
    (Trainer.opt_steps X (Trainer.actor_optimizer X s)
     + Trainer.training_step X s0
     = Trainer.opt_steps X (Trainer.actor_optimizer X s0)
       + Trainer.training_step X s + slac_steps_in_flight p)%nat /\
    (Trainer.opt_steps X (Trainer.alpha_optimizer X s)
     + Trainer.training_step X s0
     = Trainer.opt_steps X (Trainer.alpha_optimizer X s0)
       + Trainer.training_step X s + slac_steps_in_flight p)%nat in
  inv m -> inv (Trainer.step X i m).
Proof.
  intros inv. subst inv. cbv beta zeta.
  destruct m as [p s b ll l tr].
  cbn [Trainer.pc Trainer.self]. intros Hinv.
  unfold_machine.
  destruct p; cbn in Hinv; break_goal; cbn; account_facts; intros Hc;
    try congruence;
    specialize (Hinv ltac:(discriminate));
    destruct Hinv as (Ia & Ib & Ic & Id); cbn in *; repeat split; lia.
Qed.

(** Every batch costs the latent model two optimiser steps, in both
    phases, and every update cycle costs the critic, the actor and the
    temperature one step each: at every point of a run where no exception
    was raised, the latent optimiser has taken twice as many steps as the
    two counters have advanced (plus those of the iteration in flight), and
    each of the other three as many as [training_step] has advanced. *)
Theorem optimizer_steps_per_batch (X : External) (s : Trainer.t X)
    (inputs : list (Trainer.Input X)) :
  let m := Trainer.run X inputs (Trainer.enter X s) in
  let s' := Trainer.self X m in
  let p := Trainer.pc X m in
  p <> Trainer.Crashed ->
  (Trainer.opt_steps X (Trainer.latent_optimizer X s')
   + 2 * Trainer.pre_training_step X s + 2 * Trainer.training_step X s
   = Trainer.opt_steps X (Trainer.latent_optimizer X s)
     + 2 * Trainer.pre_training_step X s' + 2 * Trainer.training_step X s'
     + latent_steps_in_flight p)%nat /\
  (Trainer.opt_steps X (Trainer.critic_optimizer X s')
   + Trainer.training_step X s
   = Trainer.opt_steps X (Trainer.critic_optimizer X s)
     + Trainer.training_step X s' + slac_steps_in_flight p)%nat /\
  (Trainer.opt_steps X (Trainer.actor_optimizer X s')
   + Trainer.training_step X s
   = Trainer.opt_steps X (Trainer.actor_optimizer X s)
     + Trainer.training_step X s' + slac_steps_in_flight p)%nat /\
  (Trainer.opt_steps X (Trainer.alpha_optimizer X s')
   + Trainer.training_step X s
   = Trainer.opt_steps X (Trainer.alpha_optimizer X s)
     + Trainer.training_step X s' + slac_steps_in_flight p)%nat.
Proof.
  intros m s' p. subst m s' p.
  apply (run_invariant X (fun _ => True) _
           (fun i m _ => step_account X s i m) inputs
           (Trainer.enter X s) (Forall_True _)).
  cbn. intros _. repeat split; lia.
Qed.

Lemma optimizer_steps_per_batch_witness :
  let m := Trainer.run Stub.external (repeat (Stub.input false false) 26)
             (Trainer.enter Stub.external Stub.trainer) in
  let s' := Trainer.self Stub.external m in
  Trainer.opt_steps Stub.external (Trainer.latent_optimizer Stub.external s')
  = 4%nat /\
  Trainer.opt_steps Stub.external (Trainer.critic_optimizer Stub.external s')
  = 1%nat.
Proof.
  intros m s'.
  assert (Ed : Trainer.pc Stub.external m = Trainer.Done)
    by (vm_compute; reflexivity).
  assert (Ep : Trainer.pre_training_step Stub.external s' = 1%nat)
    by (vm_compute; reflexivity).
  assert (Et : Trainer.training_step Stub.external s' = 1%nat)
    by (vm_compute; reflexivity).
  destruct (optimizer_steps_per_batch Stub.external Stub.trainer
              (repeat (Stub.input false false) 26)) as (H1 & H2 & _).
  - fold m. rewrite Ed. discriminate.
  - fold m in H1, H2. fold s' in H1, H2.
    rewrite Ed, Ep, Et in H1. rewrite Ed, Et in H2.
    change (Trainer.pre_training_step Stub.external Stub.trainer)
      with 0%nat in H1.
    change (Trainer.training_step Stub.external Stub.trainer)
      with 0%nat in H1, H2.
    change (Trainer.opt_steps Stub.external
              (Trainer.latent_optimizer Stub.external Stub.trainer))
      with 0%nat in H1.
    change (Trainer.opt_steps Stub.external
              (Trainer.critic_optimizer Stub.external Stub.trainer))
      with 0%nat in H2.
    change (latent_steps_in_flight Trainer.Done) with 0%nat in H1.
    change (slac_steps_in_flight Trainer.Done) with 0%nat in H2.
    clearbody s'. split; lia.
Defined.

(** ** The constructor *)

Lemma init_Some (cfg : Config) (l a c : Net) (self : Agent.t) :
  Agent.init cfg l a c = Some self ->
  exists vh fh ah,
    Agent.zero_histories cfg = Some (vh, fh, ah) /\
    self = {| Agent.config := cfg;
              Agent.p_range := (0, 1);
              Agent.dx_range := (- dpos cfg, dpos cfg);
              Agent.dy_range := (- dpos cfg, dpos cfg);
              Agent.dz_range := (- dpos cfg, dpos cfg);
              Agent.dtheta_range := (- drot cfg, drot cfg);
              Agent.action_shape := action_dim cfg;
              Agent.vision_history := vh; Agent.force_history := fh;
              Agent.action_history := ah;
              Agent.latent := l; Agent.actor := a; Agent.critic := c |}.
Proof.
  unfold Agent.init. intros H.
  destruct (Agent.zero_histories cfg) as [[[vh fh] ah]|]; simpl in H;
    [|discriminate H].
  injection H as <-. now exists vh, fh, ah.
Qed.

(** The constructor fails exactly when the configuration leaves the action
    history a negative number of slots ([seq_len = 0]); when it returns, the
    agent holds the three models it was given, and its histories are those
    [resetEpisode] would set: resetting the new agent changes nothing. *)
Theorem init_is_reset (cfg : Config) (l a c : Net) :
  (Agent.init cfg l a c = None <-> seq_len cfg = 0%nat) /\
  (forall self,
     Agent.init cfg l a c = Some self ->
     Agent.getWeights self
     = (Nets.state_dict l, Nets.state_dict a, Nets.state_dict c) /\
     Agent.resetEpisode self = Some self).
Proof.
  split.
  - unfold Agent.init, Agent.zero_histories.
    destruct (seq_len cfg); simpl; split; intros H;
      solve [reflexivity | discriminate H].
  - intros self H.
    destruct (init_Some _ _ _ _ _ H) as (vh & fh & ah & E & ->).
    split; [reflexivity|].
    unfold Agent.resetEpisode. cbn [Agent.config]. rewrite E. reflexivity.
Qed.

Lemma init_is_reset_witness :
  exists self,
    Agent.init Stub.cfg (Stub.net 1) (Stub.net 2) (Stub.net 3) = Some self /\
    Agent.resetEpisode self = Some self.
Proof.
  destruct (Agent.init Stub.cfg (Stub.net 1) (Stub.net 2) (Stub.net 3))
    as [self|] eqn:E; [|vm_compute in E; discriminate E].
  exists self. split; [reflexivity|].
  exact (proj2 (proj2 (init_is_reset Stub.cfg (Stub.net 1) (Stub.net 2)
                         (Stub.net 3)) self E)).
Defined.

Lemma rows_eq_map (f g : Vec -> Vec) (rows : list Vec) :
  (forall r, vec_eq (f r) (g r)) -> rows_eq (map f rows) (map g rows).
Proof.
  intros H. induction rows as [|r rows IH]; simpl; constructor; auto.
Qed.

(** The ranges the constructor builds are symmetric about zero for the four
    movements and the unit interval for the gripper, so on a newly built
    agent [decodeActions] is a plain rescaling: the gripper command is
    [(u + 1) / 2] and each movement is the policy output times its step
    size ([dpos] for the translations, [drot] for the rotation). *)
Theorem init_decodes_by_scaling (cfg : Config) (l a c : Net) (self : Agent.t)
    (up ux uy uz ut : Vec) (rows : list Vec) :
  Agent.init cfg l a c = Some self ->
  stack5 up ux uy uz ut = Some rows ->
  exists actions,
    Agent.decodeActions self up ux uy uz ut = Some (rows, actions) /\
    rows_eq actions
      (map (map5 (fun u => (u + 1) / 2)
                 (Qmult (dpos cfg)) (Qmult (dpos cfg)) (Qmult (dpos cfg))
                 (Qmult (drot cfg))) rows).
Proof.
  intros H Hs.
  destruct (init_Some _ _ _ _ _ H) as (vh & fh & ah & _ & ->).
  eexists. split; [apply decodeActions_rows; exact Hs|].
  apply rows_eq_map. intros r.
  unfold decode_row, map5, decode1. cbn [Agent.p_range Agent.dx_range
    Agent.dy_range Agent.dz_range Agent.dtheta_range fst snd].
  repeat constructor; field.
Qed.

Lemma init_decodes_by_scaling_witness :
  exists self actions,
    Agent.init Stub.cfg (Stub.net 1) (Stub.net 2) (Stub.net 3) = Some self /\
    Agent.decodeActions self [1] [1] [0] [-1] [1 # 2]
    = Some ([[1; 1; 0; -1; 1 # 2]], actions) /\
    rows_eq actions
      [map5 (fun u => (u + 1) / 2) (Qmult (1 # 20)) (Qmult (1 # 20))
            (Qmult (1 # 20)) (Qmult (1 # 4)) [1; 1; 0; -1; 1 # 2]].
Proof.
  destruct (Agent.init Stub.cfg (Stub.net 1) (Stub.net 2) (Stub.net 3))
    as [self|] eqn:E; [|vm_compute in E; discriminate E].
  destruct (init_decodes_by_scaling Stub.cfg (Stub.net 1) (Stub.net 2)
              (Stub.net 3) self [1] [1] [0] [-1] [1 # 2]
              [[1; 1; 0; -1; 1 # 2]] E eq_refl) as (actions & Hd & Hr).
  exists self, actions. split; [reflexivity|]. split; assumption.
Defined.
